(** * station-sarthi: the map service and the map page

    A shallow embedding of [src/app/services/map.service.ts] (class
    [MapService]) and of the map page component (class [MapPage]), with the
    properties of the design document stated and proved over it.

    The two classes are glue over the browser and two mapping libraries.
    What the classes themselves compute is embedded as written: JavaScript
    values with their truthiness, [||], [?.], property reads and strict-mode
    property writes, [try]/[catch], and the order of the statements.  What
    the classes call is modelled at the level the classes can observe:
    - [JSON.parse] and [JSON.stringify] follow ECMA-262 on UTF-16 text;
    - [localStorage] is a finite map from keys to strings;
    - the console and the host's report of uncaught errors are logs;
    - Leaflet and the 3D-buildings overlay are stores of the maps, markers
      and overlays created so far, addressed by handle;
    - the document is the list of its elements in document order;
    - the geolocation observable, the script loader and the user's clicks
      are inputs: the notifications and events they deliver. *)

From Stdlib Require Import ZArith Ascii String PrimFloat FloatOps SpecFloat.
From stdpp Require Import gmap strings list.

Local Open Scope Z_scope.
Set Warnings "-inexact-float".

(** ** JavaScript values *)

(** A JavaScript string is a sequence of UTF-16 code units. *)
Abbreviation jsstring := (list N).

(** The code units of a source literal (ASCII in both sources). *)
Definition js (s : string) : jsstring :=
  List.map N_of_ascii (list_ascii_of_string s).

(** The data the two classes handle is JSON-shaped: what [JSON.parse]
    returns, what a GeoJSON document holds, and what the object and array
    literals of the source build.  An array keeps, next to its elements, the
    named properties assigned to it.  [JNative] stands for a built-in
    function object; the only one a property read of the source can reach on
    such data is [Array.prototype.fill]. *)
Unset Elimination Schemes.
Inductive JSValue : Type :=
| JUndefined
| JNull
| JBool (b : bool)
| JNum (x : float)
| JStr (s : jsstring)
| JNative (name : string)
| JArr (elems : list JSValue) (props : list (jsstring * JSValue))
| JObj (props : list (jsstring * JSValue)).
Set Elimination Schemes.

(** What a [throw] carries. *)
Inductive Exn : Type :=
| TypeError (msg : string)
| SyntaxError (msg : string)
| Thrown (v : JSValue).

(** The completion of an evaluation: a value, or an abrupt completion. *)
Inductive Completion (A : Type) : Type :=
| Returns (a : A)
| Throws (e : Exn).
Arguments Returns {A} a.
Arguments Throws {A} e.

(** ECMA-262 ToBoolean: [undefined], [null], [false], [+0], [-0], [NaN] and
    the empty string are falsy, everything else is truthy. *)
Definition ToBoolean (v : JSValue) : bool :=
  match v with
  | JUndefined | JNull => false
  | JBool b => b
  | JNum x => negb (PrimFloat.is_zero x || PrimFloat.is_nan x)
  | JStr s => match s with [] => false | _ => true end
  | JNative _ | JArr _ _ | JObj _ => true
  end.

(** [a || b], for a right operand without effects. *)
Definition or_else (a b : JSValue) : JSValue :=
  if ToBoolean a then a else b.

(** [v === null || v === undefined] *)
Definition nullish (v : JSValue) : bool :=
  match v with JUndefined | JNull => true | _ => false end.

(** Own properties, in creation order. *)
Fixpoint own_get (k : jsstring) (props : list (jsstring * JSValue)) : option JSValue :=
  match props with
  | [] => None
  | (k', v) :: rest => if decide (k' = k) then Some v else own_get k rest
  end.

(** CreateDataProperty / Set on an ordinary object: an existing key keeps its
    place, a new key goes last. *)
Fixpoint own_set (k : jsstring) (v : JSValue) (props : list (jsstring * JSValue))
  : list (jsstring * JSValue) :=
  match props with
  | [] => [(k, v)]
  | (k', v') :: rest =>
      if decide (k' = k) then (k, v) :: rest else (k', v') :: own_set k v rest
  end.

(** The property read [v.k], for a key [k] that is neither an array index nor
    ["length"] (the source reads [location], [zoom], [properties], [style],
    [fill], [weight], [color], [fillOpacity] and [dashArray]).  Reading from
    [null] or [undefined] throws; a primitive has none of these properties;
    an array inherits [fill] from [Array.prototype]; an object has what it
    owns ([Object.prototype] has none of these names). *)
Definition getProp (v : JSValue) (k : jsstring) : Completion JSValue :=
  match v with
  | JUndefined | JNull => Throws (TypeError "Cannot read properties of null or undefined")
  | JBool _ | JNum _ | JStr _ | JNative _ => Returns JUndefined
  | JArr _ props =>
      match own_get k props with
      | Some x => Returns x
      | None =>
          if decide (k = js "fill") then Returns (JNative "Array.prototype.fill")
          else Returns JUndefined
      end
  | JObj props => Returns (default JUndefined (own_get k props))
  end.

(** The optional read [v?.k]. *)
Definition getPropOpt (v : JSValue) (k : jsstring) : JSValue :=
  match getProp v k with
  | Returns x => x
  | Throws _ => JUndefined
  end.

(** The assignment [v.k = x] in strict code (class bodies are strict), for a
    key as in [getProp]: it throws on [null], [undefined] and on a primitive,
    and creates or overwrites the own property of an object or an array. *)
Definition setProp (v : JSValue) (k : jsstring) (x : JSValue) : Completion JSValue :=
  match v with
  | JObj props => Returns (JObj (own_set k x props))
  | JArr elems props => Returns (JArr elems (own_set k x props))
  | JNative name => Returns (JNative name)
  | JUndefined | JNull => Throws (TypeError "Cannot set properties of null or undefined")
  | JBool _ | JNum _ | JStr _ => Throws (TypeError "Cannot create property on a primitive")
  end.

(** ** JSON (ECMA-262, section 25.5) *)

Module JSON.

Local Open Scope N_scope.

(** *** Numbers *)

(** The binary64 value nearest to [(-1)^neg * m * 10^e], ties to even
    (ECMA-262 RoundMVResult).  The first two tests only cut short a
    magnitude that is certainly beyond the largest finite value or certainly
    below half the smallest one; the rounding itself is the Standard
    Library's, on the exact integer or on the exact quotient. *)
Definition binary64_of_decimal (neg : bool) (m : Z) (e : Z) : float :=
  match m with
  | Zpos p =>
      if (400 <? e)%Z then (if neg then neg_infinity else infinity)
      else if (Z.log2 m + 1 + e <? -330)%Z then (if neg then neg_zero else zero)
      else if (0 <=? e)%Z then
        SF2Prim (binary_normalize prec emax (if neg then - (m * 10 ^ e) else m * 10 ^ e) 0 false)%Z
      else
        let '(q, e', l) := SFdiv_core_binary prec emax m 0 (10 ^ (- e))%Z 0 in
        SF2Prim (binary_round_aux prec emax neg q e' l)
  | _ => if neg then neg_zero else zero
  end.

Definition is_digit (c : N) : bool := (48 <=? c) && (c <=? 57).

Definition digit_value (c : N) : Z := Z.of_N (c - 48).

(** The integer a run of decimal digits denotes. *)
Definition digits_value (ds : list N) : Z :=
  fold_left (fun acc c => (10 * acc + digit_value c)%Z) ds 0%Z.

Fixpoint span_digits (s : list N) : list N * list N :=
  match s with
  | c :: rest =>
      if is_digit c then let '(ds, r) := span_digits rest in (c :: ds, r)
      else ([], s)
  | [] => ([], [])
  end.

(** A JSON number, the whole of [w]: an optional minus sign; an integer part,
    one digit or more without a leading zero; an optional fraction, a point
    and one digit or more; an optional exponent, [e] or [E], an optional sign
    and one digit or more. *)
Definition parse_number (w : list N) : option float :=
  let '(neg, w1) := match w with 45 :: r => (true, r) | _ => (false, w) end in
  let '(ip, w2) := span_digits w1 in
  match ip with
  | [] => None
  | d :: more =>
      if (d =? 48) && negb (match more with [] => true | _ => false end) then None
      else
        let frac :=
          match w2 with
          | 46 :: r =>
              let '(fp, w3) := span_digits r in
              match fp with [] => None | _ => Some (fp, w3) end
          | _ => Some ([], w2)
          end in
        match frac with
        | None => None
        | Some (fp, w3) =>
            let expo :=
              match w3 with
              | [] => Some 0%Z
              | c :: r =>
                  if (c =? 101) || (c =? 69) then
                    let '(eneg, r1) :=
                      match r with
                      | 45 :: r' => (true, r')
                      | 43 :: r' => (false, r')
                      | _ => (false, r)
                      end in
                    match span_digits r1 with
                    | ((_ :: _) as ed, []) =>
                        Some (if eneg then - digits_value ed else digits_value ed)%Z
                    | _ => None
                    end
                  else None
              end in
            match expo with
            | None => None
            | Some ex =>
                Some (binary64_of_decimal neg (digits_value (ip ++ fp))
                        (ex - Z.of_nat (length fp)))
            end
        end
  end.

(** *** Lexical analysis *)

Inductive Token : Type :=
| TLBrace | TRBrace | TLBracket | TRBracket | TColon | TComma
| TString (s : jsstring)
| TNumber (x : float)
| TTrue | TFalse | TNull.

(** Where the scanner is inside a string literal. *)
Inductive Escape : Type :=
| EscNone
| EscBackslash
| EscUnicode (digits : list N).

(** Between tokens; inside a number or a literal name (its characters so far,
    last first); inside a string literal (its code units so far, last
    first). *)
Inductive LexState : Type :=
| LIdle
| LWord (acc : list N)
| LString (acc : list N) (esc : Escape).

Definition is_ws (c : N) : bool :=
  (c =? 32) || (c =? 9) || (c =? 10) || (c =? 13).

(** The characters of numbers and of [true], [false], [null]. *)
Definition is_word_char (c : N) : bool :=
  is_digit c || (c =? 45) || (c =? 43) || (c =? 46) || (c =? 69)
  || ((97 <=? c) && (c <=? 122)).

Definition hex_value (c : N) : option N :=
  if is_digit c then Some (c - 48)
  else if (97 <=? c) && (c <=? 102) then Some (c - 87)
  else if (65 <=? c) && (c <=? 70) then Some (c - 55)
  else None.

Definition token_of_word (w : list N) : option Token :=
  if decide (w = js "true") then Some TTrue
  else if decide (w = js "false") then Some TFalse
  else if decide (w = js "null") then Some TNull
  else TNumber <$> parse_number w.

(** One character met between tokens. *)
Definition lex_idle (toks : list Token) (c : N) : option (LexState * list Token) :=
  if is_ws c then Some (LIdle, toks)
  else if c =? 123 then Some (LIdle, TLBrace :: toks)
  else if c =? 125 then Some (LIdle, TRBrace :: toks)
  else if c =? 91 then Some (LIdle, TLBracket :: toks)
  else if c =? 93 then Some (LIdle, TRBracket :: toks)
  else if c =? 58 then Some (LIdle, TColon :: toks)
  else if c =? 44 then Some (LIdle, TComma :: toks)
  else if c =? 34 then Some (LString [] EscNone, toks)
  else if is_word_char c then Some (LWord [c], toks)
  else None.

(** One character met inside a string literal. *)
Definition lex_string (acc : list N) (esc : Escape) (toks : list Token) (c : N)
  : option (LexState * list Token) :=
  match esc with
  | EscNone =>
      if c =? 34 then Some (LIdle, TString (rev acc) :: toks)
      else if c =? 92 then Some (LString acc EscBackslash, toks)
      else if c <? 32 then None
      else Some (LString (c :: acc) EscNone, toks)
  | EscBackslash =>
      if (c =? 34) || (c =? 92) || (c =? 47) then Some (LString (c :: acc) EscNone, toks)
      else if c =? 98 then Some (LString (8 :: acc) EscNone, toks)
      else if c =? 102 then Some (LString (12 :: acc) EscNone, toks)
      else if c =? 110 then Some (LString (10 :: acc) EscNone, toks)
      else if c =? 114 then Some (LString (13 :: acc) EscNone, toks)
      else if c =? 116 then Some (LString (9 :: acc) EscNone, toks)
      else if c =? 117 then Some (LString acc (EscUnicode []), toks)
      else None
  | EscUnicode ds =>
      match hex_value c with
      | None => None
      | Some h =>
          match ds with
          | [d3; d2; d1] =>
              Some (LString ((((d1 * 16 + d2) * 16 + d3) * 16 + h) :: acc) EscNone, toks)
          | _ => Some (LString acc (EscUnicode (h :: ds)), toks)
          end
      end
  end.

(** The scanner: one pass over the text; [toks] holds the tokens so far,
    last first. *)
Fixpoint lex (st : LexState) (toks : list Token) (s : list N) : option (list Token) :=
  match s with
  | [] =>
      match st with
      | LIdle => Some (rev toks)
      | LWord acc => (fun t => rev (t :: toks)) <$> token_of_word (rev acc)
      | LString _ _ => None
      end
  | c :: rest =>
      match st with
      | LIdle =>
          match lex_idle toks c with
          | Some (st', toks') => lex st' toks' rest
          | None => None
          end
      | LWord acc =>
          if is_word_char c then lex (LWord (c :: acc)) toks rest
          else
            match token_of_word (rev acc) with
            | Some t =>
                match lex_idle (t :: toks) c with
                | Some (st', toks') => lex st' toks' rest
                | None => None
                end
            | None => None
            end
      | LString acc esc =>
          match lex_string acc esc toks c with
          | Some (st', toks') => lex st' toks' rest
          | None => None
          end
      end
  end.

(** *** Syntactic analysis *)

(** A container under construction: an array with its elements so far (last
    first), or an object with its members so far and the key that awaits its
    value. *)
Inductive Frame : Type :=
| FArray (elems : list JSValue)
| FObject (props : list (jsstring * JSValue)) (key : jsstring).

(** What the parser expects next; [stack] holds the open containers,
    innermost first. *)
Inductive ParseState : Type :=
| PValue (stack : list Frame)
| PArrayOpen (stack : list Frame)
| PObjectOpen (stack : list Frame)
| PKey (props : list (jsstring * JSValue)) (stack : list Frame)
| PColon (props : list (jsstring * JSValue)) (key : jsstring) (stack : list Frame)
| PDone (v : JSValue) (stack : list Frame).

(** A token where a value must start. *)
Definition parse_value_start (stack : list Frame) (t : Token) : option ParseState :=
  match t with
  | TLBracket => Some (PArrayOpen stack)
  | TLBrace => Some (PObjectOpen stack)
  | TString s => Some (PDone (JStr s) stack)
  | TNumber x => Some (PDone (JNum x) stack)
  | TTrue => Some (PDone (JBool true) stack)
  | TFalse => Some (PDone (JBool false) stack)
  | TNull => Some (PDone JNull stack)
  | TRBrace | TRBracket | TColon | TComma => None
  end.

(** A member whose key is already there replaces its value and keeps its
    place (CreateDataProperty in the order of the text). *)
Definition parse_step (st : ParseState) (t : Token) : option ParseState :=
  match st with
  | PValue stack => parse_value_start stack t
  | PArrayOpen stack =>
      match t with
      | TRBracket => Some (PDone (JArr [] []) stack)
      | _ => parse_value_start (FArray [] :: stack) t
      end
  | PObjectOpen stack =>
      match t with
      | TRBrace => Some (PDone (JObj []) stack)
      | TString k => Some (PColon [] k stack)
      | _ => None
      end
  | PKey props stack =>
      match t with
      | TString k => Some (PColon props k stack)
      | _ => None
      end
  | PColon props k stack =>
      match t with
      | TColon => Some (PValue (FObject props k :: stack))
      | _ => None
      end
  | PDone v stack =>
      match stack, t with
      | FArray elems :: stack', TComma => Some (PValue (FArray (v :: elems) :: stack'))
      | FArray elems :: stack', TRBracket => Some (PDone (JArr (rev (v :: elems)) []) stack')
      | FObject props k :: stack', TComma => Some (PKey (own_set k v props) stack')
      | FObject props k :: stack', TRBrace => Some (PDone (JObj (own_set k v props)) stack')
      | _, _ => None
      end
  end.

Fixpoint parse_tokens (st : ParseState) (toks : list Token) : option JSValue :=
  match toks with
  | [] => match st with PDone v [] => Some v | _ => None end
  | t :: rest =>
      match parse_step st t with
      | Some st' => parse_tokens st' rest
      | None => None
      end
  end.

(** [JSON.parse(text)]: the value of a text that is one JSON value, a
    [SyntaxError] otherwise. *)
Definition parse (text : jsstring) : Completion JSValue :=
  match lex LIdle [] text with
  | Some toks =>
      match parse_tokens (PValue []) toks with
      | Some v => Returns v
      | None => Throws (SyntaxError "Unexpected token in JSON")
      end
  | None => Throws (SyntaxError "Unexpected character in JSON")
  end.

(** *** Serialization *)

Fixpoint uint_digits (d : Decimal.uint) : list N :=
  match d with
  | Decimal.Nil => []
  | Decimal.D0 r => 48 :: uint_digits r
  | Decimal.D1 r => 49 :: uint_digits r
  | Decimal.D2 r => 50 :: uint_digits r
  | Decimal.D3 r => 51 :: uint_digits r
  | Decimal.D4 r => 52 :: uint_digits r
  | Decimal.D5 r => 53 :: uint_digits r
  | Decimal.D6 r => 54 :: uint_digits r
  | Decimal.D7 r => 55 :: uint_digits r
  | Decimal.D8 r => 56 :: uint_digits r
  | Decimal.D9 r => 57 :: uint_digits r
  end.

(** The decimal digits of a natural number. *)
Definition decimal_digits (n : Z) : list N := uint_digits (N.to_uint (Z.to_N n)).

(** [num / den < 10^n] *)
Definition below_pow10 (num den n : Z) : bool :=
  if (0 <=? n)%Z then (num <? den * 10 ^ n)%Z else (num * 10 ^ (- n) <? den)%Z.

(** The least [n] from [n0] on with [num / den < 10^n]. *)
Fixpoint decimal_exponent (steps : nat) (num den n0 : Z) : Z :=
  match steps with
  | O => n0
  | S steps' =>
      if below_pow10 num den n0 then n0
      else decimal_exponent steps' num den (n0 + 1)%Z
  end.

(** Number::toString, steps 5: for [x = num / den > 0] with
    [10^(n-1) <= x < 10^n], the integer [s] of the fewest digits [k] whose
    value [s * 10^(n-k)] reads back as [x]; of two such integers the one
    nearer to [x], the even one on a tie.  Seventeen digits always do. *)
Fixpoint shortest_digits (more : nat) (k : Z) (x : float) (num den n : Z) : Z * Z :=
  let '(a, b) :=
    if (0 <=? n - k)%Z then (num, den * 10 ^ (n - k))%Z
    else (num * 10 ^ (k - n), den)%Z in
  let lo := (a / b)%Z in
  let r := (a mod b)%Z in
  let hi := (lo + 1)%Z in
  let reads_back s := PrimFloat.Leibniz.eqb (binary64_of_decimal false s (n - k)) x in
  let nearest := if (2 * r <? b)%Z then lo
                 else if (b <? 2 * r)%Z then hi
                 else if Z.even lo then lo else hi in
  let found :=
    if reads_back lo && reads_back hi then Some nearest
    else if reads_back lo then Some lo
    else if reads_back hi then Some hi
    else None in
  match found, more with
  | Some s, _ => if (s =? 10 ^ k)%Z then (1, n + 1)%Z else (s, n)
  | None, S more' => shortest_digits more' (k + 1)%Z x num den n
  | None, O => (nearest, n)
  end.

(** Number::toString with radix 10. *)
Definition Number_toString (x : float) : jsstring :=
  match Prim2SF x with
  | S754_nan => js "NaN"
  | S754_zero _ => js "0"
  | S754_infinity s => if s then js "-Infinity" else js "Infinity"
  | S754_finite sign m e =>
      let '(num, den) :=
        if (0 <=? e)%Z then (Zpos m * 2 ^ e, 1)%Z else (Zpos m, 2 ^ (- e))%Z in
      let n0 := decimal_exponent 700 num den (-330)%Z in
      let '(s, n) := shortest_digits 16 1 (abs x) num den n0 in
      let ds := decimal_digits s in
      let k := Z.of_nat (length ds) in
      let body :=
        if (k <=? n)%Z && (n <=? 21)%Z then
          ds ++ replicate (Z.to_nat (n - k)) 48
        else if (0 <? n)%Z && (n <=? 21)%Z then
          take (Z.to_nat n) ds ++ js "." ++ drop (Z.to_nat n) ds
        else if (-6 <? n)%Z && (n <=? 0)%Z then
          js "0." ++ replicate (Z.to_nat (- n)) 48 ++ ds
        else
          let ex := (if (0 <=? n - 1)%Z then js "e+" else js "e-")
                    ++ decimal_digits (Z.abs (n - 1)) in
          match ds with
          | [d] => d :: ex
          | d :: more => d :: js "." ++ more ++ ex
          | [] => ex
          end in
      if sign then js "-" ++ body else body
  end.

Definition hex_digit (h : N) : N := if h <? 10 then 48 + h else 87 + h.

(** The escape [\uXXXX] of a code unit, in lower-case hexadecimal. *)
Definition unicode_escape (c : N) : list N :=
  js "\u" ++ [hex_digit (c / 4096 mod 16); hex_digit (c / 256 mod 16);
               hex_digit (c / 16 mod 16); hex_digit (c mod 16)].

Definition is_high_surrogate (c : N) : bool := (55296 <=? c) && (c <=? 56319).
Definition is_low_surrogate (c : N) : bool := (56320 <=? c) && (c <=? 57343).

Fixpoint quote_units (s : list N) : list N :=
  match s with
  | [] => []
  | c :: rest =>
      if c =? 8 then js "\b" ++ quote_units rest
      else if c =? 9 then js "\t" ++ quote_units rest
      else if c =? 10 then js "\n" ++ quote_units rest
      else if c =? 12 then js "\f" ++ quote_units rest
      else if c =? 13 then js "\r" ++ quote_units rest
      else if c =? 34 then [92; 34] ++ quote_units rest
      else if c =? 92 then [92; 92] ++ quote_units rest
      else if c <? 32 then unicode_escape c ++ quote_units rest
      else if is_high_surrogate c then
        match rest with
        | d :: rest' =>
            if is_low_surrogate d then c :: d :: quote_units rest'
            else unicode_escape c ++ quote_units rest
        | [] => unicode_escape c
        end
      else if is_low_surrogate c then unicode_escape c ++ quote_units rest
      else c :: quote_units rest
  end.

(** QuoteJSONString *)
Definition QuoteJSONString (s : jsstring) : jsstring := [34] ++ quote_units s ++ [34].

(** The array index a property key denotes, if it is one: a canonical
    decimal numeral below [2^32 - 1]. *)
Definition array_index (k : jsstring) : option Z :=
  match k with
  | [] => None
  | d :: more =>
      if forallb is_digit k
         && negb ((d =? 48) && negb (match more with [] => true | _ => false end))
         && (length k <=? 10)%nat
         && (digits_value k <? 4294967295)%Z
      then Some (digits_value k) else None
  end.

Fixpoint insert_by_index {A} (i : Z) (a : A) (l : list (Z * A)) : list (Z * A) :=
  match l with
  | [] => [(i, a)]
  | (j, b) :: rest =>
      if (i <? j)%Z then (i, a) :: l else (j, b) :: insert_by_index i a rest
  end.

(** OrdinaryOwnPropertyKeys: array indices in ascending order, then the
    other keys in creation order. *)
Definition own_property_order {A} (members : list (jsstring * A)) : list (jsstring * A) :=
  let indexed :=
    fold_left (fun acc kv =>
                 match array_index kv.1 with
                 | Some i => insert_by_index i kv acc
                 | None => acc
                 end) members [] in
  let named :=
    List.filter (fun kv => match array_index kv.1 with Some _ => false | None => true end)
      members in
  List.map snd indexed ++ named.

Fixpoint join_comma (parts : list jsstring) : jsstring :=
  match parts with
  | [] => []
  | [p] => p
  | p :: rest => p ++ [44] ++ join_comma rest
  end.

Definition is_finite (x : float) : bool :=
  negb (PrimFloat.is_nan x || PrimFloat.is_infinity x).

(** SerializeJSONProperty without replacer and gap; [None] is [undefined].
    The named properties of an array are not serialized. *)
Fixpoint SerializeJSONProperty (v : JSValue) : option jsstring :=
  match v with
  | JUndefined | JNative _ => None
  | JNull => Some (js "null")
  | JBool b => Some (if b then js "true" else js "false")
  | JNum x => Some (if is_finite x then Number_toString x else js "null")
  | JStr s => Some (QuoteJSONString s)
  | JArr elems _ =>
      Some (js "[" ++
            join_comma (List.map (fun e => default (js "null") (SerializeJSONProperty e)) elems)
            ++ js "]")
  | JObj props =>
      let members :=
        List.map (fun kv => match kv with (k, x) => (k, SerializeJSONProperty x) end) props in
      Some (js "{" ++
            join_comma
              (omap (fun kv => match kv with
                               | (k, Some text) => Some (QuoteJSONString k ++ [58] ++ text)
                               | (_, None) => None
                               end)
                    (own_property_order members))
            ++ js "}")
  end.

(** [JSON.stringify(value)] *)
Definition stringify (v : JSValue) : option jsstring := SerializeJSONProperty v.

End JSON.

(** ** Effects *)

(** A computation over a state [S]: it ends in a value or in a thrown
    exception, and either way leaves the state it has reached. *)
Definition M (S A : Type) : Type := S -> Completion A * S.

Definition ret {S A} (a : A) : M S A := fun s => (Returns a, s).

Definition bind {S A B} (m : M S A) (k : A -> M S B) : M S B :=
  fun s =>
    match m s with
    | (Returns a, s') => k a s'
    | (Throws e, s') => (Throws e, s')
    end.

Notation "x <- m ;; k" := (bind m (fun x => k))
  (at level 100, m at next level, right associativity).
Notation "m ;; k" := (bind m (fun _ => k))
  (at level 100, right associativity).

(** [throw e] *)
Definition throw {S A} (e : Exn) : M S A := fun s => (Throws e, s).

(** A pure evaluation that may throw. *)
Definition lift {S A} (c : Completion A) : M S A := fun s => (c, s).

(** [try { body } catch (error) { handler }] *)
Definition try_catch {S A} (body : M S A) (handler : Exn -> M S A) : M S A :=
  fun s =>
    match body s with
    | (Returns a, s') => (Returns a, s')
    | (Throws e, s') => handler e s'
    end.

Definition gets {S A} (f : S -> A) : M S A := fun s => (Returns (f s), s).
Definition modify {S} (f : S -> S) : M S unit := fun s => (Returns tt, f s).

(** A computation on a part [T] of the state [S]. *)
Definition zoom_in {S T A} (get : S -> T) (put : T -> S -> S) (m : M T A) : M S A :=
  fun s => let '(c, t) := m (get s) in (c, put t s).

(** The state a computation leaves, and what it completes with. *)
Definition exec {S A} (m : M S A) (s : S) : S := (m s).2.
Definition eval {S A} (m : M S A) (s : S) : Completion A := (m s).1.

(** ** The browser window *)

Inductive LogLevel : Type := LogError | LogWarn.

(** A console line: its level, its message and the error object printed
    after it, if any. *)
Record LogEntry : Type := {
  level : LogLevel;
  message : string;
  detail : option Exn
}.

(** An element of the document. *)
Record DomNode : Type := {
  tagName : string;
  elementId : string;
  classList : gset string;
  src : string
}.

(** An element handle: its position in the document. *)
Abbreviation Element := nat.

(** The window: storage, the console (latest line first), what the host
    reported as uncaught (an exception that left an event handler, an
    unhandled promise rejection, an unhandled observable error; latest
    first), the elements in document order, and whether the global
    [OSMBuildings] is defined. *)
Record Window : Type := {
  localStorage : gmap jsstring jsstring;
  console : list LogEntry;
  uncaught : list Exn;
  document : list DomNode;
  OSMBuildings_defined : bool
}.

Definition with_localStorage (f : gmap jsstring jsstring -> gmap jsstring jsstring)
    (w : Window) : Window :=
  {| localStorage := f (localStorage w); console := console w; uncaught := uncaught w;
     document := document w; OSMBuildings_defined := OSMBuildings_defined w |}.

Definition with_console (f : list LogEntry -> list LogEntry) (w : Window) : Window :=
  {| localStorage := localStorage w; console := f (console w); uncaught := uncaught w;
     document := document w; OSMBuildings_defined := OSMBuildings_defined w |}.

Definition with_uncaught (f : list Exn -> list Exn) (w : Window) : Window :=
  {| localStorage := localStorage w; console := console w; uncaught := f (uncaught w);
     document := document w; OSMBuildings_defined := OSMBuildings_defined w |}.

Definition with_document (f : list DomNode -> list DomNode) (w : Window) : Window :=
  {| localStorage := localStorage w; console := console w; uncaught := uncaught w;
     document := f (document w); OSMBuildings_defined := OSMBuildings_defined w |}.

Definition with_OSMBuildings_defined (b : bool) (w : Window) : Window :=
  {| localStorage := localStorage w; console := console w; uncaught := uncaught w;
     document := document w; OSMBuildings_defined := b |}.

(** A window just opened on a document, with what storage holds from
    earlier visits. *)
Definition open_window (storage : gmap jsstring jsstring) (doc : list DomNode) : Window :=
  {| localStorage := storage; console := []; uncaught := []; document := doc;
     OSMBuildings_defined := false |}.

(** [localStorage.getItem(key)]: [None] is [null]. *)
Definition getItem (key : jsstring) (w : Window) : option jsstring :=
  localStorage w !! key.

(** [localStorage.setItem(key, value)] *)
Definition setItem (key value : jsstring) (w : Window) : Window :=
  with_localStorage (insert key value) w.

Definition console_error (msg : string) (err : option Exn) (w : Window) : Window :=
  with_console (cons {| level := LogError; message := msg; detail := err |}) w.

Definition console_warn (msg : string) (w : Window) : Window :=
  with_console (cons {| level := LogWarn; message := msg; detail := None |}) w.

(** The host's report of an error nobody handled. *)
Definition report_uncaught (e : Exn) (w : Window) : Window :=
  with_uncaught (cons e) w.

(** [document.getElementById(id)]: the first element with that id. *)
Definition getElementById (name : string) (w : Window) : option Element :=
  fst <$> list_find (fun n => elementId n = name) (document w).

Definition remove_class (c : string) (n : DomNode) : DomNode :=
  {| tagName := tagName n; elementId := elementId n; classList := classList n ∖ {[c]}; src := src n |}.

Definition add_class (c : string) (n : DomNode) : DomNode :=
  {| tagName := tagName n; elementId := elementId n; classList := {[c]} ∪ classList n; src := src n |}.

(** ** Leaflet, as the two classes use it *)

(** Leaflet is modelled as the record of what the service has asked of it:
    the maps and markers it was asked to create, the layers it was asked to
    add, the view it was last asked for.  Leaflet itself refuses some
    requests by throwing: a flight on a map that was created without a
    centre or a zoom, a marker on coordinates that are not numbers, a
    GeoJSON layer on data that is not GeoJSON.  The record does not tell
    which requests Leaflet carries out.  A property that depends on Leaflet
    carrying a request out is therefore stated for the settings, positions
    and data that Leaflet accepts ([presentable], [on_globe] and
    [featureless] below); the others speak of the requests only, or of what
    the service does before it reaches Leaflet. *)

Module L.

Record TileLayerOptions : Type := {
  maxZoom : Z;
  minZoom : Z;
  attribution : string
}.

Record Icon : Type := {
  iconUrl : string;
  iconSize : Z * Z;
  iconAnchor : Z * Z
}.

Record MarkerOptions : Type := {
  title : string;
  icon : Icon
}.

Record ZoomPanOptions : Type := {
  animate : bool;
  duration : float
}.

(** The [style] option of a GeoJSON layer: one path-options object for every
    feature, or a function called with each feature. *)
Inductive StyleOption : Type :=
| StyleObject (style : JSValue)
| StyleFunction (style : JSValue -> Completion JSValue).

(** A layer on a map. *)
Inductive Layer : Type :=
| TileLayer (urlTemplate : string) (options : TileLayerOptions)
| MarkerLayer (marker : nat)
| GeoJSON (data : JSValue) (style : StyleOption).

(** A map: the element it is bound to, its view (the centre and the zoom it
    was given, as given), its layers in the order they were added, and the
    options of the last flight. *)
Record Map : Type := {
  container : Element;
  center : JSValue;
  zoom : JSValue;
  layers : list Layer;
  flown : option ZoomPanOptions
}.

Record Marker : Type := {
  latlng : JSValue;
  options : MarkerOptions
}.

(** The maps and markers created so far; a handle is a position. *)
Record Store : Type := {
  maps : list Map;
  markers : list Marker
}.

Definition fresh : Store := {| maps := []; markers := [] |}.

(** [L.map(element, { center, zoom })]: a new map and its handle. *)
Definition map (element : Element) (c z : JSValue) (st : Store) : nat * Store :=
  (length (maps st),
   {| maps := maps st ++ [ {| container := element; center := c; zoom := z;
                              layers := []; flown := None |} ];
      markers := markers st |}).

(** [layer.addTo(map)] *)
Definition addTo (l : Layer) (m : nat) (st : Store) : Store :=
  {| maps := alter (fun mp => {| container := container mp; center := center mp;
                                 zoom := zoom mp; layers := layers mp ++ [l];
                                 flown := flown mp |}) m (maps st);
     markers := markers st |}.

(** [L.marker(latlng, options)]: a new marker and its handle. *)
Definition marker (ll : JSValue) (o : MarkerOptions) (st : Store) : nat * Store :=
  (length (markers st),
   {| maps := maps st; markers := markers st ++ [ {| latlng := ll; options := o |} ] |}).

(** [marker.setLatLng(latlng)] *)
Definition setLatLng (mk : nat) (ll : JSValue) (st : Store) : Store :=
  {| maps := maps st;
     markers := alter (fun m => {| latlng := ll; options := options m |}) mk (markers st) |}.

(** [map.flyTo(latlng, zoom, options)]: the view the flight ends on. *)
Definition flyTo (m : nat) (c z : JSValue) (o : ZoomPanOptions) (st : Store) : Store :=
  {| maps := alter (fun mp => {| container := container mp; center := c; zoom := z;
                                 layers := layers mp; flown := Some o |}) m (maps st);
     markers := markers st |}.

(** The path options a GeoJSON layer draws a feature with. *)
Definition feature_style (style : StyleOption) (feature : JSValue) : Completion JSValue :=
  match style with
  | StyleObject o => Returns o
  | StyleFunction f => f feature
  end.

End L.

(** ** The map service ([src/app/services/map.service.ts]) *)

Module MapService.

(** The fields of the service.  [defaultMapSettings] and [tileLayer] are
    never assigned after construction and are constants below.  [map] and
    [userLocation] are [None] while the field is [undefined].  [subscribed]
    tells whether the subscription that [initializeMapSettings] opens on the
    geolocation observable is still open. *)
Record this : Type := {
  mapSettings : JSValue;
  map : option nat;
  userLocation : option nat;
  subscribed : bool
}.

(** What the service acts on: the window, Leaflet and itself. *)
Record World : Type := {
  window : Window;
  leaflet : L.Store;
  self : this
}.

Definition with_window (f : Window -> Window) (w : World) : World :=
  {| window := f (window w); leaflet := leaflet w; self := self w |}.

Definition with_leaflet (f : L.Store -> L.Store) (w : World) : World :=
  {| window := window w; leaflet := f (leaflet w); self := self w |}.

Definition with_self (f : this -> this) (w : World) : World :=
  {| window := window w; leaflet := leaflet w; self := f (self w) |}.

Definition set_mapSettings (v : JSValue) : M World unit :=
  modify (with_self (fun t =>
    {| mapSettings := v; map := map t; userLocation := userLocation t;
       subscribed := subscribed t |})).

Definition set_map (m : option nat) : M World unit :=
  modify (with_self (fun t =>
    {| mapSettings := mapSettings t; map := m; userLocation := userLocation t;
       subscribed := subscribed t |})).

Definition set_userLocation (u : option nat) : M World unit :=
  modify (with_self (fun t =>
    {| mapSettings := mapSettings t; map := map t; userLocation := u;
       subscribed := subscribed t |})).

Definition set_subscribed (b : bool) : M World unit :=
  modify (with_self (fun t =>
    {| mapSettings := mapSettings t; map := map t; userLocation := userLocation t;
       subscribed := b |})).

(** A call that returns a handle from Leaflet's store. *)
Definition from_leaflet {A} (f : L.Store -> A * L.Store) : M World A :=
  fun w => let '(a, st) := f (leaflet w) in (Returns a, with_leaflet (fun _ => st) w).

(** [private defaultMapSettings: MapSettings = { location: [...], zoom: 19 }] *)
Definition defaultMapSettings : JSValue :=
  JObj [ (js "location", JArr [JNum 31.25271960741618; JNum 100.70475680715587] []);
         (js "zoom", JNum 19) ].

(** [{ ...this.defaultMapSettings }]: a new object with the own properties of
    the default one.  No statement of the class writes into a location array,
    so the array the copy shares with the original is the same value
    throughout. *)
Definition defaultMapSettings_copy : JSValue :=
  match defaultMapSettings with
  | JObj props => JObj (JSON.own_property_order props)
  | _ => JObj []
  end.

(** [private tileLayer: TileLayer = { url: ..., options: {...} }] *)
Definition tileLayer_url : string := "https://{s}.tile.openstreetmap.org/{z}/{x}/{y}.png".

Definition tileLayer_options : L.TileLayerOptions :=
  {| L.maxZoom := 19; L.minZoom := 3; L.attribution := "OpenStreetMap" |}.

(** The read [this.mapSettings.key]. *)
Definition read_setting (key : string) : M World JSValue :=
  settings <- gets (fun w => mapSettings (self w)) ;;
  lift (getProp settings (js key)).

(** The assignment [this.mapSettings.location = value]. *)
Definition assign_location (value : JSValue) : M World unit :=
  settings <- gets (fun w => mapSettings (self w)) ;;
  settings' <- lift (setProp settings (js "location") value) ;;
  set_mapSettings settings'.

(** [private saveMapSettings(): void]; [setItem] stores the string
    ["undefined"] when [JSON.stringify] returns [undefined]. *)
Definition saveMapSettings : M World unit :=
  settings <- gets (fun w => mapSettings (self w)) ;;
  modify (with_window
            (setItem (js "mapSettings")
               (default (js "undefined") (JSON.stringify settings)))).

(** [private useStoredOrDefaultLocation(): void] *)
Definition useStoredOrDefaultLocation : M World unit :=
  held <- read_setting "location" ;;
  fallback <- lift (getProp defaultMapSettings (js "location")) ;;
  assign_location (or_else held fallback).

(** The [markerOptions] constant of [renderLocationMarker]. *)
Definition markerOptions : L.MarkerOptions :=
  {| L.title := "You are here";
     L.icon := {| L.iconUrl := "/assets/images/location-icon.png";
                  L.iconSize := (32, 32);
                  L.iconAnchor := (16, 32) |} |}.

(** The options [renderLocationMarker] gives to [flyTo]. *)
Definition flyOptions : L.ZoomPanOptions :=
  {| L.animate := true; L.duration := 1.5 |}.

(** [private renderLocationMarker(): void] *)
Definition renderLocationMarker : M World unit :=
  m <- gets (fun w => map (self w)) ;;
  match m with
  | None => modify (with_window (console_warn "Map not initialized"))
  | Some the_map =>
      u <- gets (fun w => userLocation (self w)) ;;
      match u with
      | Some mk =>
          loc <- read_setting "location" ;;
          modify (with_leaflet (L.setLatLng mk loc))
      | None =>
          loc <- read_setting "location" ;;
          mk <- from_leaflet (L.marker loc markerOptions) ;;
          modify (with_leaflet (L.addTo (L.MarkerLayer mk) the_map)) ;;
          set_userLocation (Some mk)
      end ;;
      loc <- read_setting "location" ;;
      z <- read_setting "zoom" ;;
      modify (with_leaflet (L.flyTo the_map loc z flyOptions))
  end.

(** [private renderMap(element: HTMLElement): void]; [None] is an element
    that is [null]. *)
Definition renderMap (element : option Element) : M World unit :=
  match element with
  | None => modify (with_window (console_error "Map element not found" None))
  | Some el =>
      c <- read_setting "location" ;;
      z <- read_setting "zoom" ;;
      the_map <- from_leaflet (L.map el c z) ;;
      set_map (Some the_map) ;;
      modify (with_leaflet (L.addTo (L.TileLayer tileLayer_url tileLayer_options) the_map)) ;;
      renderLocationMarker
  end.

(** [getMap(element: HTMLElement): Observable<L.Map>]: what [of(this.map)]
    emits to a subscriber, [None] for [undefined]. *)
Definition getMap (element : option Element) : M World (option nat) :=
  m <- gets (fun w => map (self w)) ;;
  match m with
  | None => renderMap element
  | Some _ => ret tt
  end ;;
  gets (fun w => map (self w)).

(** The [defaultStyle] constant of [getStyles]. *)
Definition defaultStyle : JSValue :=
  JObj [ (js "fillColor", JStr (js "#FFFFFF"));
         (js "weight", JNum 2);
         (js "opacity", JNum 1);
         (js "color", JStr (js "black"));
         (js "dashArray", JStr (js ""));
         (js "fillOpacity", JNum 0.7) ].

(** [private getStyles(feature: any): L.PathOptions] *)
Definition getStyles (feature : JSValue) : Completion JSValue :=
  match getProp feature (js "properties") with
  | Throws e => Throws e
  | Returns properties =>
      if ToBoolean (getPropOpt properties (js "style")) then
        let style := getPropOpt properties (js "style") in
        let field from to := or_else (getPropOpt style (js from)) (getPropOpt defaultStyle (js to)) in
        Returns (JObj [ (js "fillColor", field "fill" "fillColor");
                        (js "weight", field "weight" "weight");
                        (js "color", field "color" "color");
                        (js "fillOpacity", field "fillOpacity" "fillOpacity");
                        (js "dashArray", field "dashArray" "dashArray") ])
      else Returns defaultStyle
  end.

(** [renderGeoJson(data: any): void] *)
Definition renderGeoJson (data : JSValue) : M World unit :=
  m <- gets (fun w => map (self w)) ;;
  match m with
  | Some the_map =>
      style <- lift (getStyles data) ;;
      modify (with_leaflet (L.addTo (L.GeoJSON data (L.StyleObject style)) the_map))
  | None => modify (with_window (console_warn "Map not initialized"))
  end.

(** What the geolocation observable delivers: a position or [null], an
    error, or completion. *)
Inductive Notification : Type :=
| Next (position : option (float * float))
| Error (error : Exn)
| Complete.

(** The function given to [map(...)] in [initializeMapSettings]. *)
Definition on_position (position : option (float * float)) : M World JSValue :=
  match position with
  | Some (lat, lng) =>
      assign_location (JArr [JNum lat; JNum lng] []) ;;
      saveMapSettings ;;
      renderLocationMarker
  | None =>
      modify (with_window
                (console_warn "No position available, using stored or default settings")) ;;
      useStoredOrDefaultLocation
  end ;;
  gets (fun w => mapSettings (self w)).

(** The function given to [catchError(...)]; it returns [of(this.mapSettings)]. *)
Definition on_error (error : Exn) : M World JSValue :=
  modify (with_window (console_error "Error fetching geolocation:" (Some error))) ;;
  useStoredOrDefaultLocation ;;
  gets (fun w => mapSettings (self w)).

(** [catchError]: the handler runs, the observable it returns replaces the
    source, emits and completes; a throw of the handler is an error nobody
    handles, since [subscribe()] was given no callback.  Either way the
    subscription to the source is over. *)
Definition recover (error : Exn) (w : World) : World :=
  match on_error error w with
  | (Returns _, w') => exec (set_subscribed false) w'
  | (Throws e, w') => exec (set_subscribed false) (with_window (report_uncaught e) w')
  end.

(** One notification through [pipe(map(...), catchError(...))]: a value goes
    through the function of [map]; a throw of that function is an error like
    one of the source. *)
Definition deliver (n : Notification) (w : World) : World :=
  if subscribed (self w) then
    match n with
    | Next position =>
        match on_position position w with
        | (Returns _, w') => w'
        | (Throws e, w') => recover e w'
        end
    | Error e => recover e w
    | Complete => exec (set_subscribed false) w
    end
  else w.

(** [private initializeMapSettings(): void] *)
Definition initializeMapSettings : M World unit :=
  storedSettings <- gets (fun w => getItem (js "mapSettings") (window w)) ;;
  match storedSettings with
  | Some (c :: text) =>
      try_catch
        (settings <- lift (JSON.parse (c :: text)) ;;
         set_mapSettings settings)
        (fun error =>
           modify (with_window
                     (console_error "Error parsing map settings from localStorage:"
                        (Some error))) ;;
           set_mapSettings defaultMapSettings_copy)
  | Some [] | None => ret tt
  end ;;
  set_subscribed true.

(** [new MapService(geoLocationService)]: the field initializers, then the
    constructor body. *)
Definition construct (win : Window) (lf : L.Store) : World :=
  exec initializeMapSettings
    {| window := win; leaflet := lf;
       self := {| mapSettings := defaultMapSettings_copy; map := None;
                  userLocation := None; subscribed := false |} |}.

(** What can happen to a constructed service. *)
Inductive Operation : Type :=
| Geolocation (n : Notification)
| GetMap (element : option Element)
| RenderGeoJson (data : JSValue).

(** The world after an operation; an exception that leaves a public method
    goes to its caller. *)
Definition step (w : World) (op : Operation) : World :=
  match op with
  | Geolocation n => deliver n w
  | GetMap element => exec (getMap element) w
  | RenderGeoJson data => exec (renderGeoJson data) w
  end.

Definition run (ops : list Operation) (w : World) : World := fold_left step ops w.

End MapService.

(** ** The map page (class [MapPage]) *)

Module MapPage.

(** An instance of the 3D-buildings overlay: the map it was given
    ([None] for [undefined]), the settings it was given, the tile source
    given to [load], and whether it is still on the map. *)
Record Overlay : Type := {
  onMap : option nat;
  settings : JSValue;
  source : string;
  attached : bool
}.

(** The fields of the page.  [None] is [undefined]; [awaiting] holds the
    source of the script while the subscriber of [ngAfterViewInit] is
    suspended at [await this.loadScript(src)].  The host initializes the
    view of a page once, so one subscriber at most is suspended and one slot
    holds it; a second initialization, which the host does not make, would
    have a suspension of its own, which this slot does not keep apart. *)
Record this : Type := {
  map : option nat;
  osmb : option nat;
  awaiting : option string
}.

(** What the page acts on: the service and its world, the overlays created
    so far (a handle is a position), and itself. *)
Record World : Type := {
  service : MapService.World;
  overlays : list Overlay;
  self : this
}.

Definition with_service (f : MapService.World -> MapService.World) (w : World) : World :=
  {| service := f (service w); overlays := overlays w; self := self w |}.

Definition with_overlays (f : list Overlay -> list Overlay) (w : World) : World :=
  {| service := service w; overlays := f (overlays w); self := self w |}.

Definition with_self (f : this -> this) (w : World) : World :=
  {| service := service w; overlays := overlays w; self := f (self w) |}.

Definition with_window (f : Window -> Window) : World -> World :=
  with_service (MapService.with_window f).

Definition window (w : World) : Window := MapService.window (service w).

Definition set_map (m : option nat) : M World unit :=
  modify (with_self (fun t => {| map := m; osmb := osmb t; awaiting := awaiting t |})).

Definition set_osmb (o : option nat) : M World unit :=
  modify (with_self (fun t => {| map := map t; osmb := o; awaiting := awaiting t |})).

Definition set_awaiting (a : option string) : M World unit :=
  modify (with_self (fun t => {| map := map t; osmb := osmb t; awaiting := a |})).

(** A call of a method of the injected service. *)
Definition mapService {A} (m : M MapService.World A) : M World A :=
  zoom_in service (fun sw w => with_service (fun _ => sw) w) m.

(** [private osmbSettings = { zoom: 19, effects: ['shadows', 'bloom'] }] *)
Definition osmbSettings : JSValue :=
  JObj [ (js "zoom", JNum 19);
         (js "effects", JArr [JStr (js "shadows"); JStr (js "bloom")] []) ].

Definition script_url : string := "https://cdn.osmbuildings.org/OSMBuildings-Leaflet.js".

Definition data_url : string :=
  "https://{s}.data.osmbuildings.org/0.2/59fcc2e8/tile/{z}/{x}/{y}.json".

(** [new (window as any).OSMBuildings(map, settings).load(url)]: a
    [TypeError] while the global is not defined; otherwise a new overlay on
    the map, loading from [url]; [load] returns the overlay it is called
    on. *)
Definition new_OSMBuildings (m : option nat) (s : JSValue) (url : string) : M World nat :=
  defined <- gets (fun w => OSMBuildings_defined (window w)) ;;
  if defined : bool then
    h <- gets (fun w => length (overlays w)) ;;
    modify (with_overlays (fun ovs =>
      ovs ++ [ {| onMap := m; settings := s; source := url; attached := true |} ])) ;;
    ret h
  else throw (TypeError "OSMBuildings is not a constructor").

(** [overlay.remove()] *)
Definition remove_overlay (h : nat) : M World unit :=
  modify (with_overlays (alter (fun o =>
    {| onMap := onMap o; settings := settings o; source := source o;
       attached := false |}) h)).

(** [private initializeOSMBuildings(): void] *)
Definition initializeOSMBuildings : M World unit :=
  o <- gets (fun w => osmb (self w)) ;;
  match o with
  | None =>
      m <- gets (fun w => map (self w)) ;;
      h <- new_OSMBuildings m osmbSettings data_url ;;
      set_osmb (Some h)
  | Some _ => ret tt
  end.

(** [private toggleUI(button: HTMLButtonElement): void] *)
Definition toggleUI (button : Element) : M World unit :=
  modify (with_window (with_document (fun doc =>
    (fun n => if decide (tagName n = "button") then remove_class "active" n else n) <$> doc))) ;;
  modify (with_window (with_document (alter (add_class "active") button))).

(** [render3D(event: MouseEvent): void], with [event.target] *)
Definition render3D (target : Element) : M World unit :=
  initializeOSMBuildings ;;
  toggleUI target.

(** [render2D(event: MouseEvent): void], with [event.target] *)
Definition render2D (target : Element) : M World unit :=
  o <- gets (fun w => osmb (self w)) ;;
  match o with
  | Some h =>
      remove_overlay h ;;
      set_osmb None
  | None => ret tt
  end ;;
  toggleUI target.

(** [private async loadScript(src: string): Promise<void>], up to the
    pending promise: the script element is appended to the body. *)
Definition loadScript (url : string) : M World unit :=
  modify (with_window (with_document (fun doc =>
    doc ++ [ {| tagName := "script"; elementId := ""; classList := ∅; src := url |} ]))).

(** The subscriber of [ngAfterViewInit], up to its [await]. *)
Definition subscriber (m : option nat) : M World unit :=
  set_map m ;;
  loadScript script_url ;;
  set_awaiting (Some script_url).

(** [async ngAfterViewInit(): Promise<void>]: [of(this.map)] emits when it
    is subscribed to, so the subscriber runs inside the [try] up to its
    [await]; it is an [async] function, so nothing it does after that is
    inside the [try]. *)
Definition ngAfterViewInit : M World unit :=
  mapEl <- gets (fun w => getElementById "map" (window w)) ;;
  try_catch
    (m <- mapService (MapService.getMap mapEl) ;;
     subscriber m)
    (fun error =>
       modify (with_window (console_error "Error loading OSMBuildings script:" (Some error)))).

(** The script has loaded ([script.onload]): the promise of [loadScript]
    resolves and the subscriber goes on after its [await].  Loading the
    script defines the global.  An exception now rejects the promise of the
    subscriber, which nobody holds. *)
Definition script_loaded (w : World) : World :=
  match awaiting (self w) with
  | Some _ =>
      let w1 := with_window (with_OSMBuildings_defined true) (exec (set_awaiting None) w) in
      match initializeOSMBuildings w1 with
      | (Returns _, w2) => w2
      | (Throws e, w2) => with_window (report_uncaught e) w2
      end
  | None => w
  end.

(** The script has failed to load ([script.onerror]): the promise of
    [loadScript] rejects with the message, the [await] throws it inside the
    subscriber, and the promise of the subscriber rejects; nobody holds it. *)
Definition script_failed (w : World) : World :=
  match awaiting (self w) with
  | Some url =>
      with_window
        (report_uncaught (Thrown (JStr (js ("Failed to load script: " ++ url)))))
        (exec (set_awaiting None) w)
  | None => w
  end.

(** An event handler called by the host: an exception that leaves it is
    reported and goes no further. *)
Definition dispatch (handler : M World unit) (w : World) : World :=
  match handler w with
  | (Returns _, w') => w'
  | (Throws e, w') => with_window (report_uncaught e) w'
  end.

(** What can happen to the page. *)
Inductive Event : Type :=
| ViewInit
| ScriptLoaded
| ScriptFailed
| Click3D (target : Element)
| Click2D (target : Element).

Definition step (w : World) (ev : Event) : World :=
  match ev with
  | ViewInit => dispatch ngAfterViewInit w
  | ScriptLoaded => script_loaded w
  | ScriptFailed => script_failed w
  | Click3D target => dispatch (render3D target) w
  | Click2D target => dispatch (render2D target) w
  end.

Definition run (evs : list Event) (w : World) : World := fold_left step evs w.

(** The page opened in a window: the service is constructed, then the
    page, whose field initializers leave [map] and [osmb] undefined. *)
Definition open (win : Window) : World :=
  {| service := MapService.construct win L.fresh;
     overlays := [];
     self := {| map := None; osmb := None; awaiting := None |} |}.

End MapPage.

(** ** Specification vocabulary *)

(** The five style fields a feature may override, each with the field of the
    path options it ends in. *)
Definition style_fields : list (string * string) :=
  [ ("fill", "fillColor"); ("weight", "weight"); ("color", "color");
    ("fillOpacity", "fillOpacity"); ("dashArray", "dashArray") ]%string.

(** [c] keeps the invariant [I], whatever it completes with. *)
Definition preserves (I : MapService.World -> Prop) {A} (c : M MapService.World A) : Prop :=
  forall w, I w -> I (c w).2.

(** [P] of the settings value, as an invariant. *)
Definition on_settings (P : JSValue -> Prop) (w : MapService.World) : Prop :=
  P (MapService.mapSettings (MapService.self w)).

(** The console lines of the service. *)
Definition warn_no_map : LogEntry :=
  {| level := LogWarn; message := "Map not initialized"; detail := None |}.

Definition warn_no_position : LogEntry :=
  {| level := LogWarn;
     message := "No position available, using stored or default settings";
     detail := None |}.

Definition error_no_element : LogEntry :=
  {| level := LogError; message := "Map element not found"; detail := None |}.

Definition error_parsing (e : Exn) : LogEntry :=
  {| level := LogError; message := "Error parsing map settings from localStorage:";
     detail := Some e |}.

Definition error_geolocation (e : Exn) : LogEntry :=
  {| level := LogError; message := "Error fetching geolocation:"; detail := Some e |}.

(** The value the parser has completed, if it has, is not [undefined]. *)
Definition completed_defined (st : JSON.ParseState) : Prop :=
  match st with
  | JSON.PDone v _ => v <> JUndefined
  | _ => True
  end.

(** [P] survives an assignment to the [location] property. *)
Definition location_closed (P : JSValue -> Prop) : Prop :=
  forall s v s', P s -> setProp s (js "location") v = Returns s' -> P s'.

(** The handles of the service agree with Leaflet's store: without a map
    there is no map and no marker; with one, it is the only map, and the
    marker, if there is one, the only marker. *)
Definition coherent (w : MapService.World) : Prop :=
  match MapService.map (MapService.self w) with
  | None =>
      L.maps (MapService.leaflet w) = []
      /\ L.markers (MapService.leaflet w) = []
      /\ MapService.userLocation (MapService.self w) = None
  | Some h =>
      h = 0%nat
      /\ length (L.maps (MapService.leaflet w)) = 1%nat
      /\ match MapService.userLocation (MapService.self w) with
         | None => L.markers (MapService.leaflet w) = []
         | Some mk => mk = 0%nat /\ length (L.markers (MapService.leaflet w)) = 1%nat
         end
  end.

(** The view of the map the service holds. *)
Definition view_center (w : MapService.World) : option JSValue :=
  h ← MapService.map (MapService.self w);
  L.center <$> L.maps (MapService.leaflet w) !! h.

Definition view_zoom (w : MapService.World) : option JSValue :=
  h ← MapService.map (MapService.self w);
  L.zoom <$> L.maps (MapService.leaflet w) !! h.

(** Where the location marker of the service stands. *)
Definition marker_position (w : MapService.World) : option JSValue :=
  mk ← MapService.userLocation (MapService.self w);
  L.latlng <$> L.markers (MapService.leaflet w) !! mk.

(** The class list of an element of the page. *)
Definition classes_of (w : MapPage.World) (e : Element) : option (gset string) :=
  classList <$> document (MapPage.window w) !! e.

(** A notification that brings no position: [null], or an error. *)
Definition failure (n : MapService.Notification) : bool :=
  match n with
  | MapService.Next None | MapService.Error _ => true
  | MapService.Next (Some _) | MapService.Complete => false
  end.

(** The fields of a service just constructed around [settings]. *)
Definition constructed (settings : JSValue) : MapService.this :=
  {| MapService.mapSettings := settings; MapService.map := None;
     MapService.userLocation := None; MapService.subscribed := true |}.

(** The map [getMap] creates on [el] with centre [c] and zoom [z], and the
    marker it puts on it. *)
Definition created_map (el : Element) (c z : JSValue) : L.Map :=
  {| L.container := el; L.center := c; L.zoom := z;
     L.layers := [ L.TileLayer MapService.tileLayer_url MapService.tileLayer_options;
                   L.MarkerLayer 0 ];
     L.flown := Some MapService.flyOptions |}.

Definition created_marker (c : JSValue) : L.Marker :=
  {| L.latlng := c; L.options := MapService.markerOptions |}.

(** The settings after a position on a first visit. *)
Definition located (lat lng : float) : JSValue :=
  JObj [ (js "location", JArr [JNum lat; JNum lng] []); (js "zoom", JNum 19) ].

(** The [location] of the default settings. *)
Definition default_location : JSValue :=
  JArr [JNum 31.25271960741618; JNum 100.70475680715587] [].

(** ** Sample data *)

(** A page with the map container and the two mode buttons. *)
Definition sample_document : list DomNode :=
  [ {| tagName := "div"; elementId := "map"; classList := ∅; src := "" |};
    {| tagName := "button"; elementId := "mode-3d"; classList := ∅; src := "" |};
    {| tagName := "button"; elementId := "mode-2d"; classList := {["active"]}; src := "" |} ].

(** The window of a first visit, and of a visit that finds [text] stored. *)
Definition first_visit : Window := open_window ∅ sample_document.

Definition visit_with (text : jsstring) : Window :=
  open_window {[ js "mapSettings" := text ]} sample_document.

(** A JSON text, written with an apostrophe for each double quote. *)
Definition json_text (s : string) : jsstring :=
  (fun c => if (c =? 39)%N then 34%N else c) <$> js s.

(** Settings as an earlier visit has stored them. *)
Definition stored_settings : jsstring := json_text "{'location':[48.5,2.25],'zoom':19}".

(** A feature whose style asks for a transparent fill and no border. *)
Definition transparent_style : JSValue :=
  JObj [ (js "fillOpacity", JNum 0); (js "weight", JNum 0) ].

Definition transparent_feature : JSValue :=
  JObj [ (js "type", JStr (js "Feature"));
         (js "properties", JObj [ (js "style", transparent_style) ]) ].

(** A collection of two features, one styled red, one styled blue. *)
Definition red_feature : JSValue :=
  JObj [ (js "type", JStr (js "Feature"));
         (js "properties", JObj [ (js "style", JObj [ (js "fill", JStr (js "red")) ]) ]) ].

Definition blue_feature : JSValue :=
  JObj [ (js "type", JStr (js "Feature"));
         (js "properties", JObj [ (js "style", JObj [ (js "fill", JStr (js "blue")) ]) ]) ].

Definition two_features : JSValue :=
  JObj [ (js "type", JStr (js "FeatureCollection"));
         (js "features", JArr [red_feature; blue_feature] []) ].

(** The service of a first visit, and the same once the page has asked for
    the map on the container. *)
Definition first_service : MapService.World :=
  MapService.construct first_visit L.fresh.

Definition first_service_with_map : MapService.World :=
  exec (MapService.getMap (Some 0%nat)) first_service.

(** The service of a visit that finds the text [null] stored. *)
Definition null_service : MapService.World :=
  MapService.construct (visit_with (js "null")) L.fresh.

(** The page of a first visit, and the same while the script is loading. *)
Definition first_page : MapPage.World := MapPage.open first_visit.

Definition first_page_loading : MapPage.World :=
  MapPage.run [MapPage.ViewInit] first_page.

(** ** Further vocabulary *)

(** An operation that brings a position. *)
Definition brings_position (op : MapService.Operation) : bool :=
  match op with
  | MapService.Geolocation (MapService.Next (Some _)) => true
  | _ => false
  end.

(** The view follows the settings: the handles are coherent, the settings
    are an object with a truthy location, and a map, if the service holds
    one, is centred on that location at the zoom of the settings, with the
    marker on that location. *)
Definition follows_settings (w : MapService.World) : Prop :=
  coherent w
  /\ exists props loc,
       MapService.mapSettings (MapService.self w) = JObj props
       /\ own_get (js "location") props = Some loc
       /\ ToBoolean loc = true
       /\ (is_Some (MapService.map (MapService.self w)) ->
           view_center w = Some loc
           /\ marker_position w = Some loc
           /\ view_zoom w = Some (default JUndefined (own_get (js "zoom") props))).

(** The overlay [initializeOSMBuildings] creates on the map [m]. *)
Definition created_overlay (m : option nat) : MapPage.Overlay :=
  {| MapPage.onMap := m; MapPage.settings := MapPage.osmbSettings;
     MapPage.source := MapPage.data_url; MapPage.attached := true |}.

(** An overlay taken off the map. *)
Definition detached (ov : MapPage.Overlay) : MapPage.Overlay :=
  {| MapPage.onMap := MapPage.onMap ov; MapPage.settings := MapPage.settings ov;
     MapPage.source := MapPage.source ov; MapPage.attached := false |}.

(** The script element [loadScript] appends. *)
Definition script_element : DomNode :=
  {| tagName := "script"; elementId := ""; classList := ∅; src := MapPage.script_url |}.

(** The console line of the [catch] of [ngAfterViewInit]. *)
Definition error_loading (e : Exn) : LogEntry :=
  {| level := LogError; message := "Error loading OSMBuildings script:"; detail := Some e |}.

(** The page of a visit that finds the text [null] stored. *)
Definition null_page : MapPage.World := MapPage.open (visit_with (js "null")).

(** A window whose document lacks the map container. *)
Definition bare_visit : Window :=
  open_window ∅ [ {| tagName := "button"; elementId := "mode-3d"; classList := ∅; src := "" |} ].

(** A GeoJSON layer as [renderGeoJson] adds it: its style option is the one
    object [getStyles] has returned for its data. *)
Definition added_by_renderGeoJson (l : L.Layer) : Prop :=
  match l with
  | L.GeoJSON data (L.StyleObject style) => MapService.getStyles data = Returns style
  | _ => False
  end.

(** The map is dressed as the service dresses it: without a map Leaflet
    holds nothing; with one, it is the only map, its first layer is the tile
    layer, its second the one location marker with its options, every layer
    after that a GeoJSON layer, its last flight was made with the options of
    the service, and it is centred where the marker stands. *)
Definition dressed (w : MapService.World) : Prop :=
  match MapService.map (MapService.self w) with
  | None =>
      L.maps (MapService.leaflet w) = []
      /\ L.markers (MapService.leaflet w) = []
      /\ MapService.userLocation (MapService.self w) = None
  | Some h =>
      h = 0%nat
      /\ MapService.userLocation (MapService.self w) = Some 0%nat
      /\ exists mp mk overlays,
           L.maps (MapService.leaflet w) = [mp]
           /\ L.markers (MapService.leaflet w) = [mk]
           /\ L.layers mp
              = L.TileLayer MapService.tileLayer_url MapService.tileLayer_options
                :: L.MarkerLayer 0 :: overlays
           /\ Forall added_by_renderGeoJson overlays
           /\ L.flown mp = Some MapService.flyOptions
           /\ L.options mk = MapService.markerOptions
           /\ L.latlng mk = L.center mp
  end.

(** The page is in order: the map of the service is dressed; the page holds
    no map or the map of the service; the overlay the page refers to exists
    and is on the map, and no other overlay is; every overlay was created
    with the settings and the tile source of the page, on no map or on the
    map of the service; the page waits for no script but its own; and once
    an overlay exists the global [OSMBuildings] is defined. *)
Definition in_order (w : MapPage.World) : Prop :=
  dressed (MapPage.service w)
  /\ (MapPage.map (MapPage.self w) = None
      \/ MapPage.map (MapPage.self w) = Some 0%nat
         /\ MapService.map (MapService.self (MapPage.service w)) = Some 0%nat)
  /\ (forall o, MapPage.osmb (MapPage.self w) = Some o ->
        MapPage.attached <$> MapPage.overlays w !! o = Some true)
  /\ (forall i ov, MapPage.overlays w !! i = Some ov ->
        (MapPage.attached ov = true -> MapPage.osmb (MapPage.self w) = Some i)
        /\ MapPage.settings ov = MapPage.osmbSettings
        /\ MapPage.source ov = MapPage.data_url
        /\ (MapPage.onMap ov = None \/ MapPage.onMap ov = Some 0%nat))
  /\ (forall url, MapPage.awaiting (MapPage.self w) = Some url -> url = MapPage.script_url)
  /\ (MapPage.overlays w <> [] -> OSMBuildings_defined (MapPage.window w) = true).

(** A position on the globe: a latitude and a longitude in degrees. *)
Definition on_globe (lat lng : float) : bool :=
  PrimFloat.leb (-90) lat && PrimFloat.leb lat 90
  && PrimFloat.leb (-180) lng && PrimFloat.leb lng 180.

(** A zoom the tile layer has tiles for (its [minZoom] and [maxZoom]). *)
Definition on_tiles (z : float) : bool := PrimFloat.leb 3 z && PrimFloat.leb z 19.

(** Settings Leaflet takes for a view: an object whose location is a
    position on the globe and whose zoom is one of the tile layer's.  The
    default settings are such, and so is what the service stores after a
    position on the globe. *)
Definition presentable (settings : JSValue) : Prop :=
  exists props lat lng z,
    settings = JObj props
    /\ own_get (js "location") props = Some (JArr [JNum lat; JNum lng] [])
    /\ on_globe lat lng = true
    /\ own_get (js "zoom") props = Some (JNum z)
    /\ on_tiles z = true.

(** A feature a GeoJSON layer skips: an object with no geometry to draw. *)
Definition without_geometry (feature : JSValue) : bool :=
  match feature with
  | JObj _ =>
      negb (ToBoolean (getPropOpt feature (js "geometries"))
            || ToBoolean (getPropOpt feature (js "geometry"))
            || ToBoolean (getPropOpt feature (js "features"))
            || ToBoolean (getPropOpt feature (js "coordinates")))
  | _ => false
  end.

(** A collection whose features all go undrawn: Leaflet makes an empty
    GeoJSON layer of it. *)
Definition featureless (data : JSValue) : bool :=
  match data with
  | JObj props =>
      match own_get (js "features") props with
      | Some (JArr features _) => forallb without_geometry features
      | _ => false
      end
  | _ => false
  end.

(** An operation whose requests Leaflet accepts, on a service with
    presentable settings: a position on the globe, data that [getStyles]
    refuses or that is a featureless collection; a notification without a
    position and a call of [getMap] bring nothing of their own. *)
Definition tame (op : MapService.Operation) : bool :=
  match op with
  | MapService.Geolocation (MapService.Next (Some (lat, lng))) => on_globe lat lng
  | MapService.Geolocation _ => true
  | MapService.GetMap _ => true
  | MapService.RenderGeoJson data => nullish data || featureless data
  end.

(** The view is initialized at most once, as the host does for a page. *)
Definition initializes (ev : MapPage.Event) : bool :=
  match ev with MapPage.ViewInit => true | _ => false end.

Definition initialized_once (evs : list MapPage.Event) : bool :=
  (length (List.filter initializes evs) <=? 1)%nat.

(** The page of a visit, once the service has seen [ops]. *)
Definition page_after (ops : list MapService.Operation) (win : Window) : MapPage.World :=
  MapPage.with_service (MapService.run ops) (MapPage.open win).

(** * Properties *)

Arguments js : simpl never.
Arguments JSON.parse : simpl never.
Arguments JSON.stringify : simpl never.

(** ** JavaScript values *)

Lemma own_get_own_set_eq k v props : own_get k (own_set k v props) = Some v.
Proof.
  induction props as [|[k' v'] rest IH]; simpl.
  - by rewrite decide_True.
  - destruct (decide (k' = k)) as [->|Hne]; simpl.
    + by rewrite decide_True.
    + by rewrite decide_False.
Qed.

Lemma own_get_own_set_ne k k' v props :
  k <> k' -> own_get k' (own_set k v props) = own_get k' props.
Proof.
  intros Hne. induction props as [|[k0 v0] rest IH]; simpl.
  - by rewrite decide_False.
  - destruct (decide (k0 = k)) as [->|Hk]; simpl.
    + by rewrite !decide_False.
    + destruct (decide (k0 = k')); [done | apply IH].
Qed.

Lemma own_set_same k v props : own_get k props = Some v -> own_set k v props = props.
Proof.
  induction props as [|[k' v'] rest IH]; simpl; [done|].
  destruct (decide (k' = k)) as [->|Hne].
  - by intros [= ->].
  - intros H. by rewrite IH.
Qed.

(** What an assignment leaves behind is an object. *)
Lemma setProp_not_nullish s k v s' :
  setProp s k v = Returns s' -> nullish s' = false.
Proof. destruct s; simpl; intros [= <-] || intros [=]; done. Qed.

(** An assignment to one property leaves the reads of the others alone. *)
Lemma getProp_setProp_ne s k k' v s' :
  k <> k' -> setProp s k v = Returns s' -> getProp s' k' = getProp s k'.
Proof.
  intros Hne. destruct s; simpl; (intros [= <-] || intros [=]); simpl; try done.
  - by rewrite own_get_own_set_ne.
  - by rewrite own_get_own_set_ne.
Qed.

Lemma getProp_setProp_object props k v :
  getProp (JObj (own_set k v props)) k = Returns v.
Proof. simpl. by rewrite own_get_own_set_eq. Qed.

(** ** JSON *)

(** [JSON.parse] never returns [undefined]. *)
Lemma parse_step_defined st t st' :
  JSON.parse_step st t = Some st' -> completed_defined st'.
Proof.
  destruct st as [stack|stack|stack|props stack|props key stack|v stack];
    destruct t; simpl; try (intros [= <-]; simpl; done); try done.
  all: destruct stack as [|[elems|props key] stack']; simpl;
    try (intros [= <-]; simpl; done); done.
Qed.

Lemma parse_tokens_defined toks : forall st v,
  completed_defined st -> JSON.parse_tokens st toks = Some v -> v <> JUndefined.
Proof.
  induction toks as [|t rest IH]; intros st v Hst; simpl.
  - destruct st as [| | | | |v0 [|]]; try done. by intros [= <-].
  - destruct (JSON.parse_step st t) as [st'|] eqn:Hstep; [|done].
    apply IH. by eapply parse_step_defined.
Qed.

Lemma parse_defined text v : JSON.parse text = Returns v -> v <> JUndefined.
Proof.
  unfold JSON.parse. destruct (JSON.lex _ _ _) as [toks|]; [|done].
  destruct (JSON.parse_tokens _ _) as [v'|] eqn:Hp; [|done].
  intros [= <-]. eapply parse_tokens_defined; [|exact Hp]. done.
Qed.

Example parse_null : JSON.parse (js "null") = Returns JNull.
Proof. vm_compute. reflexivity. Qed.

Example parse_settings :
  JSON.parse (stored_settings)
  = Returns (JObj [ (js "location", JArr [JNum 48.5; JNum 2.25] []); (js "zoom", JNum 19) ]).
Proof. vm_compute. reflexivity. Qed.

Example parse_truncated :
  JSON.parse (json_text "{'location':[48.5,") = Throws (SyntaxError "Unexpected token in JSON").
Proof. vm_compute. reflexivity. Qed.

Example stringify_default :
  JSON.stringify MapService.defaultMapSettings
  = Some (json_text "{'location':[31.25271960741618,100.70475680715587],'zoom':19}").
Proof. vm_compute. reflexivity. Qed.

Example stringify_parse_default :
  JSON.parse (default [] (JSON.stringify MapService.defaultMapSettings))
  = Returns MapService.defaultMapSettings.
Proof. vm_compute. reflexivity. Qed.

(** ** Path styles *)

Lemma defaultMapSettings_copy_eq :
  MapService.defaultMapSettings_copy = MapService.defaultMapSettings.
Proof. vm_compute. reflexivity. Qed.

(** The default style: white fill, weight 2, opacity 1, black border, no
    dash pattern, fill opacity 0.7. *)
Lemma defaultStyle_fields :
  getProp MapService.defaultStyle (js "fillColor") = Returns (JStr (js "#FFFFFF"))
  /\ getProp MapService.defaultStyle (js "weight") = Returns (JNum 2)
  /\ getProp MapService.defaultStyle (js "opacity") = Returns (JNum 1)
  /\ getProp MapService.defaultStyle (js "color") = Returns (JStr (js "black"))
  /\ getProp MapService.defaultStyle (js "dashArray") = Returns (JStr [])
  /\ getProp MapService.defaultStyle (js "fillOpacity") = Returns (JNum 0.7).
Proof. repeat split; vm_compute; reflexivity. Qed.

(** A feature without properties, with [null] properties, without a style
    or with a falsy one is drawn with the default style. *)
Lemma getStyles_no_style feature properties :
  getProp feature (js "properties") = Returns properties ->
  ToBoolean (getPropOpt properties (js "style")) = false ->
  MapService.getStyles feature = Returns MapService.defaultStyle.
Proof. intros Hp Hs. unfold MapService.getStyles. by rewrite Hp, Hs. Qed.

(** The path options of a feature with a style: each of the five fields is
    the override or the default. *)
Lemma getStyles_with_style feature properties :
  getProp feature (js "properties") = Returns properties ->
  ToBoolean (getPropOpt properties (js "style")) = true ->
  let style := getPropOpt properties (js "style") in
  let field from to :=
    or_else (getPropOpt style (js from)) (getPropOpt MapService.defaultStyle (js to)) in
  MapService.getStyles feature =
    Returns (JObj [ (js "fillColor", field "fill" "fillColor");
                    (js "weight", field "weight" "weight");
                    (js "color", field "color" "color");
                    (js "fillOpacity", field "fillOpacity" "fillOpacity");
                    (js "dashArray", field "dashArray" "dashArray") ]%string).
Proof. intros Hp Hs. unfold MapService.getStyles. by rewrite Hp, Hs. Qed.

(** C4, as amended: a feature without a (truthy) style block is drawn with
    exactly the default style; a feature with a style block is drawn, in each
    of the five fields a style can override, with the override when that is
    truthy and with the default when the override is missing. *)
Theorem getStyles_field_by_field (feature properties : JSValue) :
  getProp feature (js "properties") = Returns properties ->
  (ToBoolean (getPropOpt properties (js "style")) = false ->
   MapService.getStyles feature = Returns MapService.defaultStyle)
  /\ (ToBoolean (getPropOpt properties (js "style")) = true ->
      exists result,
        MapService.getStyles feature = Returns result
        /\ forall from to, (from, to) ∈ style_fields ->
             let override := getPropOpt (getPropOpt properties (js "style")) (js from) in
             (ToBoolean override = true -> getProp result (js to) = Returns override)
             /\ (override = JUndefined ->
                 getProp result (js to) = getProp MapService.defaultStyle (js to))).
Proof.
  intros Hp. split; [by apply getStyles_no_style|].
  intros Hs. eexists. split; [by apply getStyles_with_style|].
  intros from to Hin. unfold style_fields in Hin.
  repeat (apply elem_of_cons in Hin as [[= -> ->]|Hin]);
    [..|by apply elem_of_nil in Hin].
  all: split; [intros Ht | intros Hu].
  all: try (unfold or_else; rewrite Ht; vm_compute; reflexivity).
  all: rewrite Hu; vm_compute; reflexivity.
Qed.

(** C4, as stated, fails: a style that overrides the fill opacity and the
    weight with [0] is not kept; the path options carry the defaults. *)
Lemma getStyles_zero_override_lost :
  exists result,
    MapService.getStyles transparent_feature = Returns result
    /\ getProp transparent_style (js "fillOpacity") = Returns (JNum 0)
    /\ getProp result (js "fillOpacity") = Returns (JNum 0.7)
    /\ getProp result (js "fillOpacity") <> getProp transparent_style (js "fillOpacity")
    /\ getProp transparent_style (js "weight") = Returns (JNum 0)
    /\ getProp result (js "weight") = Returns (JNum 2).
Proof.
  eexists. split; [vm_compute; reflexivity|].
  split; [vm_compute; reflexivity|]. split; [vm_compute; reflexivity|].
  split; [|split; vm_compute; reflexivity].
  vm_compute. intros [=].
Qed.

(** The path options built from a style block have no [opacity] field. *)
Example getStyles_with_style_has_no_opacity :
  exists result,
    MapService.getStyles red_feature = Returns result
    /\ getProp result (js "opacity") = Returns JUndefined.
Proof. eexists. split; vm_compute; reflexivity. Qed.

(** ** The GeoJSON overlay *)

(** What [renderGeoJson] adds to the map: a layer whose style option is one
    object, computed from the document as a whole. *)
Lemma renderGeoJson_layer w data m style :
  MapService.map (MapService.self w) = Some m ->
  MapService.getStyles data = Returns style ->
  MapService.renderGeoJson data w
  = (Returns tt,
     MapService.with_leaflet (L.addTo (L.GeoJSON data (L.StyleObject style)) m) w).
Proof.
  intros Hm Hs. unfold MapService.renderGeoJson, bind, gets, lift, modify.
  simpl. by rewrite Hm, Hs.
Qed.

(** C5, on the code: rendering a collection of a red and a blue feature adds
    one layer whose style option is the default style, so both features are
    drawn with the default style, the style of neither. *)
Theorem renderGeoJson_shares_one_style :
  (L.layers <$>
     L.maps (MapService.leaflet
               (exec (MapService.renderGeoJson two_features) first_service_with_map))
       !! 0%nat)
  = Some [ L.TileLayer MapService.tileLayer_url MapService.tileLayer_options;
           L.MarkerLayer 0;
           L.GeoJSON two_features (L.StyleObject MapService.defaultStyle) ]
  /\ L.feature_style (L.StyleObject MapService.defaultStyle) red_feature
     = Returns MapService.defaultStyle
  /\ L.feature_style (L.StyleObject MapService.defaultStyle) blue_feature
     = Returns MapService.defaultStyle
  /\ MapService.getStyles red_feature <> Returns MapService.defaultStyle
  /\ MapService.getStyles blue_feature <> Returns MapService.defaultStyle
  /\ MapService.getStyles red_feature <> MapService.getStyles blue_feature.
Proof.
  split; [vm_compute; reflexivity|].
  split; [reflexivity|]. split; [reflexivity|].
  split; [|split]; vm_compute; intros [=].
Qed.

(** ** Invariants of the service *)

Create HintDb keeps.

Section Preserves.

Context (I : MapService.World -> Prop).

Lemma preserves_ret {A} (a : A) : preserves I (ret a).
Proof. by intros w. Qed.

Lemma preserves_lift {A} (c : Completion A) : preserves I (lift c).
Proof. by intros w. Qed.

Lemma preserves_gets {A} (f : MapService.World -> A) : preserves I (gets f).
Proof. by intros w. Qed.

Lemma preserves_bind {A B} (m : M MapService.World A) (k : A -> M MapService.World B) :
  preserves I m -> (forall a, preserves I (k a)) -> preserves I (bind m k).
Proof.
  intros Hm Hk w Hw. unfold bind. specialize (Hm w Hw).
  destruct (m w) as [[a|e] w']; simpl in *; [by apply Hk | done].
Qed.

Lemma preserves_try_catch {A} (body : M MapService.World A) handler :
  preserves I body -> (forall e, preserves I (handler e)) ->
  preserves I (try_catch body handler).
Proof.
  intros Hb Hh w Hw. unfold try_catch. specialize (Hb w Hw).
  destruct (body w) as [[a|e] w']; simpl in *; [done | by apply Hh].
Qed.

End Preserves.

#[export] Hint Resolve preserves_ret preserves_lift preserves_gets : keeps.

(** Descend through the binds and the case distinctions of a method, closing
    the leaves with the hints. *)
Ltac keeps :=
  repeat first
    [ progress intros
    | solve [eauto with keeps]
    | match goal with
      | |- preserves _ (match ?x with _ => _ end) => destruct x
      | |- preserves _ (bind _ _) => apply preserves_bind
      | |- preserves _ (try_catch _ _) => apply preserves_try_catch
      end ].

(** *** The settings value *)

Section KeepsSettings.

Context (P : JSValue -> Prop).

Lemma keeps_window f : preserves (on_settings P) (modify (MapService.with_window f)).
Proof. by intros w. Qed.

Lemma keeps_leaflet f : preserves (on_settings P) (modify (MapService.with_leaflet f)).
Proof. by intros w. Qed.

Lemma keeps_from_leaflet {A} (f : L.Store -> A * L.Store) :
  preserves (on_settings P) (MapService.from_leaflet f).
Proof. intros w. unfold MapService.from_leaflet. by destruct (f _). Qed.

Lemma keeps_set_map m : preserves (on_settings P) (MapService.set_map m).
Proof. by intros w. Qed.

Lemma keeps_set_userLocation u : preserves (on_settings P) (MapService.set_userLocation u).
Proof. by intros w. Qed.

Lemma keeps_set_subscribed b : preserves (on_settings P) (MapService.set_subscribed b).
Proof. by intros w. Qed.

#[local] Hint Resolve keeps_window keeps_leaflet keeps_from_leaflet keeps_set_map
  keeps_set_userLocation keeps_set_subscribed : keeps.

Lemma keeps_read_setting key : preserves (on_settings P) (MapService.read_setting key).
Proof. unfold MapService.read_setting. keeps. Qed.

Lemma keeps_saveMapSettings : preserves (on_settings P) MapService.saveMapSettings.
Proof. unfold MapService.saveMapSettings. keeps. Qed.

#[local] Hint Resolve keeps_read_setting keeps_saveMapSettings : keeps.

Lemma keeps_renderLocationMarker : preserves (on_settings P) MapService.renderLocationMarker.
Proof. unfold MapService.renderLocationMarker. keeps. Qed.

#[local] Hint Resolve keeps_renderLocationMarker : keeps.

Lemma keeps_getMap element : preserves (on_settings P) (MapService.getMap element).
Proof. unfold MapService.getMap, MapService.renderMap. keeps. Qed.

Lemma keeps_renderGeoJson data : preserves (on_settings P) (MapService.renderGeoJson data).
Proof. unfold MapService.renderGeoJson. keeps. Qed.

Hypothesis closed : location_closed P.

Lemma keeps_assign_location v : preserves (on_settings P) (MapService.assign_location v).
Proof.
  intros [win lf [s m u b]] Hw. unfold MapService.assign_location, bind, gets, lift. simpl in *.
  destruct (setProp s (js "location") v) as [s'|e] eqn:Hset; simpl; [|done].
  by eapply closed.
Qed.

#[local] Hint Resolve keeps_assign_location : keeps.

Lemma keeps_useStoredOrDefaultLocation :
  preserves (on_settings P) MapService.useStoredOrDefaultLocation.
Proof. unfold MapService.useStoredOrDefaultLocation. keeps. Qed.

#[local] Hint Resolve keeps_useStoredOrDefaultLocation : keeps.

Lemma keeps_on_position position : preserves (on_settings P) (MapService.on_position position).
Proof. unfold MapService.on_position. keeps. Qed.

Lemma keeps_on_error e : preserves (on_settings P) (MapService.on_error e).
Proof. unfold MapService.on_error. keeps. Qed.

Lemma recover_keeps e w :
  P (MapService.mapSettings (MapService.self w)) ->
  P (MapService.mapSettings (MapService.self (MapService.recover e w))).
Proof.
  intros Hw. unfold MapService.recover. pose proof (keeps_on_error e w Hw) as H.
  by destruct (MapService.on_error e w) as [[a|e'] w'].
Qed.

Lemma deliver_keeps n w :
  P (MapService.mapSettings (MapService.self w)) ->
  P (MapService.mapSettings (MapService.self (MapService.deliver n w))).
Proof.
  intros Hw. unfold MapService.deliver. destruct (MapService.subscribed _); [|done].
  destruct n as [position|e|]; [|by apply recover_keeps|done].
  pose proof (keeps_on_position position w Hw) as H.
  destruct (MapService.on_position position w) as [[a|e'] w']; [done|].
  by apply recover_keeps.
Qed.

Lemma step_keeps w op :
  P (MapService.mapSettings (MapService.self w)) ->
  P (MapService.mapSettings (MapService.self (MapService.step w op))).
Proof.
  intros Hw. destruct op as [n|element|data]; simpl.
  - by apply deliver_keeps.
  - by apply keeps_getMap.
  - by apply keeps_renderGeoJson.
Qed.

Lemma run_keeps ops : forall w,
  P (MapService.mapSettings (MapService.self w)) ->
  P (MapService.mapSettings (MapService.self (MapService.run ops w))).
Proof.
  induction ops as [|op ops IH]; intros w Hw; simpl; [done|].
  apply IH. by apply step_keeps.
Qed.

End KeepsSettings.

(** *** The handles *)

Ltac unfold_service :=
  unfold MapService.deliver, MapService.recover, MapService.on_position,
    MapService.on_error, MapService.getMap, MapService.renderMap,
    MapService.renderGeoJson,
    MapService.renderLocationMarker, MapService.useStoredOrDefaultLocation,
    MapService.saveMapSettings, MapService.assign_location, MapService.read_setting,
    MapService.set_mapSettings, MapService.set_map, MapService.set_userLocation,
    MapService.set_subscribed, MapService.from_leaflet,
    exec, eval, bind, gets, modify, lift, ret, throw, try_catch.

Lemma coherent_window f : preserves coherent (modify (MapService.with_window f)).
Proof. by intros w. Qed.

Lemma coherent_set_mapSettings v : preserves coherent (MapService.set_mapSettings v).
Proof. by intros w. Qed.

Lemma coherent_set_subscribed b : preserves coherent (MapService.set_subscribed b).
Proof. by intros w. Qed.

#[export] Hint Resolve coherent_window coherent_set_mapSettings coherent_set_subscribed : keeps.

Lemma coherent_read_setting key : preserves coherent (MapService.read_setting key).
Proof. unfold MapService.read_setting. keeps. Qed.

Lemma coherent_assign_location v : preserves coherent (MapService.assign_location v).
Proof. unfold MapService.assign_location. keeps. Qed.

Lemma coherent_saveMapSettings : preserves coherent MapService.saveMapSettings.
Proof. unfold MapService.saveMapSettings. keeps. Qed.

#[export] Hint Resolve coherent_read_setting coherent_assign_location
  coherent_saveMapSettings : keeps.

Lemma coherent_useStoredOrDefaultLocation :
  preserves coherent MapService.useStoredOrDefaultLocation.
Proof. unfold MapService.useStoredOrDefaultLocation. keeps. Qed.

Lemma coherent_renderLocationMarker : preserves coherent MapService.renderLocationMarker.
Proof.
  intros [win [maps markers] [s m u b]]. unfold coherent. simpl.
  destruct m as [h|]; [|done].
  intros (-> & Hlen & Hu). destruct maps as [|mp [|]]; try discriminate.
  unfold_service. simpl.
  destruct u as [mk|].
  - destruct Hu as [-> Hl]. destruct markers as [|m0 [|]]; try discriminate.
    repeat (case_match; simpl in *; simplify_eq); done.
  - subst markers.
    repeat (case_match; simpl in *; simplify_eq); done.
Qed.

#[export] Hint Resolve coherent_useStoredOrDefaultLocation coherent_renderLocationMarker : keeps.

Lemma coherent_getMap element : preserves coherent (MapService.getMap element).
Proof.
  intros [win [maps markers] [s m u b]]. unfold coherent. simpl.
  destruct m as [h|].
  - intros H. unfold_service. by simpl.
  - intros (-> & -> & ->). unfold_service. simpl.
    destruct element as [el|]; simpl; [|done].
    repeat (case_match; simpl in *; simplify_eq); done.
Qed.

Lemma coherent_renderGeoJson data : preserves coherent (MapService.renderGeoJson data).
Proof.
  intros [win [maps markers] [s m u b]]. unfold coherent. simpl.
  destruct m as [h|]; [|done].
  intros (-> & Hlen & Hu). destruct maps as [|mp [|]]; try discriminate.
  unfold_service. simpl. destruct (MapService.getStyles data); simpl; done.
Qed.

Lemma coherent_on_position position : preserves coherent (MapService.on_position position).
Proof. unfold MapService.on_position. keeps. Qed.

Lemma coherent_on_error e : preserves coherent (MapService.on_error e).
Proof. unfold MapService.on_error. keeps. Qed.

Lemma coherent_recover e w : coherent w -> coherent (MapService.recover e w).
Proof.
  intros Hw. unfold MapService.recover. pose proof (coherent_on_error e w Hw) as H.
  by destruct (MapService.on_error e w) as [[a|e'] w'].
Qed.

Lemma coherent_deliver n w : coherent w -> coherent (MapService.deliver n w).
Proof.
  intros Hw. unfold MapService.deliver. destruct (MapService.subscribed _); [|done].
  destruct n as [position|e|]; [|by apply coherent_recover|done].
  pose proof (coherent_on_position position w Hw) as H.
  destruct (MapService.on_position position w) as [[a|e'] w']; [done|].
  by apply coherent_recover.
Qed.

Lemma coherent_step w op : coherent w -> coherent (MapService.step w op).
Proof.
  intros Hw. destruct op as [n|element|data]; simpl.
  - by apply coherent_deliver.
  - by apply coherent_getMap.
  - by apply coherent_renderGeoJson.
Qed.

Lemma coherent_run ops : forall w, coherent w -> coherent (MapService.run ops w).
Proof.
  induction ops as [|op ops IH]; intros w Hw; simpl; [done|].
  apply IH. by apply coherent_step.
Qed.

(** *** Construction *)

Lemma construct_self win lf :
  let w := MapService.construct win lf in
  MapService.leaflet w = lf
  /\ MapService.map (MapService.self w) = None
  /\ MapService.userLocation (MapService.self w) = None
  /\ MapService.subscribed (MapService.self w) = true.
Proof.
  unfold MapService.construct, MapService.initializeMapSettings. unfold_service. simpl.
  destruct (getItem _ win) as [[|c text]|]; simpl; try done.
  destruct (JSON.parse (c :: text)); simpl; done.
Qed.

Lemma coherent_construct win : coherent (MapService.construct win L.fresh).
Proof.
  destruct (construct_self win L.fresh) as (Hl & Hm & Hu & _).
  unfold coherent. rewrite Hm, Hl, Hu. done.
Qed.

Lemma initializeMapSettings_returns w :
  eval MapService.initializeMapSettings w = Returns tt.
Proof.
  unfold MapService.initializeMapSettings. unfold_service. simpl.
  destruct (getItem _ _) as [[|c text]|]; simpl; try done.
  destruct (JSON.parse (c :: text)); simpl; done.
Qed.

Lemma construct_settings_absent win lf :
  getItem (js "mapSettings") win = None \/ getItem (js "mapSettings") win = Some [] ->
  MapService.mapSettings (MapService.self (MapService.construct win lf))
  = MapService.defaultMapSettings
  /\ MapService.window (MapService.construct win lf) = win.
Proof.
  unfold MapService.construct, MapService.initializeMapSettings. unfold_service. simpl.
  intros [-> | ->]; simpl; by rewrite defaultMapSettings_copy_eq.
Qed.

Lemma construct_settings_parsed win lf text v :
  getItem (js "mapSettings") win = Some text -> text <> [] ->
  JSON.parse text = Returns v ->
  MapService.mapSettings (MapService.self (MapService.construct win lf)) = v
  /\ MapService.window (MapService.construct win lf) = win.
Proof.
  unfold MapService.construct, MapService.initializeMapSettings. unfold_service. simpl.
  intros -> Hne Hp. destruct text as [|c text]; [done|]. simpl. by rewrite Hp.
Qed.

Lemma construct_settings_unparseable win lf text e :
  getItem (js "mapSettings") win = Some text -> text <> [] ->
  JSON.parse text = Throws e ->
  MapService.mapSettings (MapService.self (MapService.construct win lf))
  = MapService.defaultMapSettings
  /\ console (MapService.window (MapService.construct win lf))
     = error_parsing e :: console win.
Proof.
  unfold MapService.construct, MapService.initializeMapSettings. unfold_service. simpl.
  intros -> Hne Hp. destruct text as [|c text]; [done|]. simpl. rewrite Hp. simpl.
  by rewrite defaultMapSettings_copy_eq.
Qed.

Lemma construct_first_visit win lf :
  getItem (js "mapSettings") win = None \/ getItem (js "mapSettings") win = Some [] ->
  MapService.construct win lf
  = {| MapService.window := win; MapService.leaflet := lf;
       MapService.self := constructed MapService.defaultMapSettings |}.
Proof.
  unfold MapService.construct, MapService.initializeMapSettings. unfold_service. simpl.
  intros [-> | ->]; simpl; by rewrite defaultMapSettings_copy_eq.
Qed.

Lemma stringify_object props : is_Some (JSON.stringify (JObj props)).
Proof. unfold JSON.stringify. simpl. eauto. Qed.

Lemma zoom_is_not_location : js "location" <> js "zoom".
Proof. vm_compute. intros [=]. Qed.

Opaque JSON.stringify JSON.parse.

(** ** The map handle *)

Lemma getMap_existing w h element :
  MapService.map (MapService.self w) = Some h ->
  MapService.getMap element w = (Returns (Some h), w).
Proof. intros Hm. unfold_service. simpl. rewrite Hm. simpl. by rewrite Hm. Qed.

Lemma getMap_absent w :
  MapService.map (MapService.self w) = None ->
  MapService.getMap None w
  = (Returns None, MapService.with_window (console_error "Map element not found" None) w).
Proof. intros Hm. unfold_service. simpl. rewrite Hm. simpl. by rewrite Hm. Qed.

Lemma getMap_fresh w el c z :
  MapService.map (MapService.self w) = None ->
  coherent w ->
  getProp (MapService.mapSettings (MapService.self w)) (js "location") = Returns c ->
  getProp (MapService.mapSettings (MapService.self w)) (js "zoom") = Returns z ->
  MapService.getMap (Some el) w
  = (Returns (Some 0%nat),
     {| MapService.window := MapService.window w;
        MapService.leaflet :=
          {| L.maps := [created_map el c z]; L.markers := [created_marker c] |};
        MapService.self :=
          {| MapService.mapSettings := MapService.mapSettings (MapService.self w);
             MapService.map := Some 0%nat;
             MapService.userLocation := Some 0%nat;
             MapService.subscribed := MapService.subscribed (MapService.self w) |} |}).
Proof.
  destruct w as [win [maps markers] [s m u b]]. unfold coherent. simpl.
  intros -> (-> & -> & ->) Hc Hz. unfold_service. simpl.
  repeat (first [rewrite Hc | rewrite Hz]; simpl). reflexivity.
Qed.

Lemma getProp_defined s k : nullish s = false -> exists v, getProp s k = Returns v.
Proof.
  destruct s; simpl; try done; eauto.
  intros _. destruct (own_get k props); [eauto|]. destruct (decide _); eauto.
Qed.

(** [getMap], given an element, over settings that are [null] or
    [undefined]: the read of the centre throws before Leaflet is asked for
    a map, and nothing has changed. *)
Lemma getMap_on_nullish_settings w el :
  MapService.map (MapService.self w) = None ->
  nullish (MapService.mapSettings (MapService.self w)) = true ->
  MapService.getMap (Some el) w
  = (Throws (TypeError "Cannot read properties of null or undefined"), w).
Proof.
  destruct w as [win lf [s m u b]]. simpl. intros -> Hn.
  unfold_service. simpl. destruct s; try discriminate; reflexivity.
Qed.

(** C6, on the code: a visit that finds the text [null] stored.  The
    settings are [null] (the defect of C2), the service holds no map, and
    [getMap], given the map container, throws while it reads the centre,
    before it asks Leaflet for a map: it constructs no map and returns
    nothing.  Nothing has changed, so every later call does the same, for
    every element: the service never gets a map. *)
Theorem getMap_on_stored_null_constructs_no_map :
  getItem (js "mapSettings") (visit_with (js "null")) = Some (js "null")
  /\ MapService.mapSettings (MapService.self null_service) = JNull
  /\ MapService.map (MapService.self null_service) = None
  /\ L.maps (MapService.leaflet null_service) = []
  /\ (forall el,
        MapService.getMap (Some el) null_service
        = (Throws (TypeError "Cannot read properties of null or undefined"), null_service))
  /\ (forall els,
        MapService.run (MapService.GetMap <$> (Some <$> els)) null_service = null_service).
Proof.
  assert (Hm : MapService.map (MapService.self null_service) = None)
    by (vm_compute; reflexivity).
  assert (Hs : MapService.mapSettings (MapService.self null_service) = JNull)
    by (vm_compute; reflexivity).
  assert (Hthrows : forall el,
            MapService.getMap (Some el) null_service
            = (Throws (TypeError "Cannot read properties of null or undefined"), null_service)).
  { intros el. apply getMap_on_nullish_settings; [exact Hm|]. by rewrite Hs. }
  split; [vm_compute; reflexivity|]. split; [exact Hs|]. split; [exact Hm|].
  split; [vm_compute; reflexivity|]. split; [exact Hthrows|].
  induction els as [|el els IH]; [reflexivity|].
  cbn [fmap list_fmap MapService.run fold_left MapService.step]. unfold exec.
  rewrite (Hthrows el). exact IH.
Qed.

(** ** A position arrives *)

Lemma stringify_object_default props :
  Some (default (js "undefined") (JSON.stringify (JObj props))) = JSON.stringify (JObj props).
Proof. by destruct (stringify_object props) as [t ->]. Qed.

(** The general case of C1: the settings are an object and the handles are
    coherent. *)
Lemma deliver_position w lat lng props :
  MapService.subscribed (MapService.self w) = true ->
  MapService.mapSettings (MapService.self w) = JObj props ->
  coherent w ->
  let coords := JArr [JNum lat; JNum lng] [] in
  let w' := MapService.deliver (MapService.Next (Some (lat, lng))) w in
  MapService.mapSettings (MapService.self w') = JObj (own_set (js "location") coords props)
  /\ getProp (MapService.mapSettings (MapService.self w')) (js "location") = Returns coords
  /\ getItem (js "mapSettings") (MapService.window w')
     = JSON.stringify (MapService.mapSettings (MapService.self w'))
  /\ (is_Some (MapService.map (MapService.self w)) ->
      marker_position w' = Some coords
      /\ view_center w' = Some coords
      /\ Returns <$> view_zoom w'
         = Some (getProp (MapService.mapSettings (MapService.self w)) (js "zoom")))
  /\ (MapService.map (MapService.self w) = None ->
      MapService.leaflet w' = MapService.leaflet w
      /\ MapService.map (MapService.self w') = None
      /\ marker_position w' = None
      /\ console (MapService.window w') = warn_no_map :: console (MapService.window w)).
Proof.
  destruct w as [win [maps markers] [s m u b]]. unfold coherent. simpl.
  intros -> -> Hcoh.
  pose proof (stringify_object_default
                (own_set (js "location") (JArr [JNum lat; JNum lng] []) props)) as Hstr.
  destruct m as [h|].
  - destruct Hcoh as (-> & Hlen & Hu).
    destruct maps as [|mp [|]]; try discriminate.
    destruct u as [mk|].
    + destruct Hu as [-> Hl]. destruct markers as [|m0 [|]]; try discriminate.
      unfold_service. unfold view_center, view_zoom, marker_position, getItem, setItem. simpl.
      rewrite own_get_own_set_eq, lookup_insert_eq, own_get_own_set_ne by apply zoom_is_not_location.
      rewrite Hstr. repeat split; try done; by intros [? [=]].
    + unfold_service. unfold view_center, view_zoom, marker_position, getItem, setItem. simpl.
      rewrite Hu. simpl.
      rewrite own_get_own_set_eq, lookup_insert_eq, own_get_own_set_ne by apply zoom_is_not_location.
      rewrite Hstr. repeat split; try done; by intros [? [=]].
  - destruct Hcoh as (-> & -> & ->).
    unfold_service. unfold view_center, view_zoom, marker_position, getItem, setItem. simpl.
    rewrite own_get_own_set_eq, lookup_insert_eq.
    rewrite Hstr. repeat split; try done; by intros [? [=]].
Qed.




(** ** No position arrives *)

Lemma default_location_eq :
  getProp MapService.defaultMapSettings (js "location") = Returns default_location.
Proof. vm_compute. reflexivity. Qed.

Lemma or_else_truthy a b : ToBoolean a = true -> or_else a b = a.
Proof. unfold or_else. by intros ->. Qed.

Lemma or_else_falsy a b : ToBoolean a = false -> or_else a b = b.
Proof. unfold or_else. by intros ->. Qed.

(** The general case of C3. *)
Lemma deliver_failure w n props :
  MapService.subscribed (MapService.self w) = true ->
  MapService.mapSettings (MapService.self w) = JObj props ->
  failure n = true ->
  let held := default JUndefined (own_get (js "location") props) in
  let w' := MapService.deliver n w in
  MapService.mapSettings (MapService.self w')
  = JObj (own_set (js "location") (or_else held default_location) props)
  /\ (ToBoolean held = true ->
      MapService.mapSettings (MapService.self w') = MapService.mapSettings (MapService.self w))
  /\ (ToBoolean held = false ->
      getProp (MapService.mapSettings (MapService.self w')) (js "location")
      = Returns default_location)
  /\ localStorage (MapService.window w') = localStorage (MapService.window w)
  /\ MapService.leaflet w' = MapService.leaflet w
  /\ MapService.map (MapService.self w') = MapService.map (MapService.self w)
  /\ MapService.userLocation (MapService.self w')
     = MapService.userLocation (MapService.self w)
  /\ console (MapService.window w')
     = match n with
       | MapService.Error e => error_geolocation e
       | _ => warn_no_position
       end :: console (MapService.window w).
Proof.
  destruct w as [win lf [s m u b]]. simpl. intros -> -> Hn.
  set (held := default JUndefined (own_get (js "location") props)).
  assert (Hheld : ToBoolean held = true ->
                  own_set (js "location") (or_else held default_location) props = props).
  { intros Ht. rewrite or_else_truthy by done. apply own_set_same.
    unfold held in *. by destruct (own_get (js "location") props). }
  assert (Hfall : ToBoolean held = false -> or_else held default_location = default_location).
  { apply or_else_falsy. }
  destruct n as [[position|]|e|]; try discriminate.
  - unfold_service. simpl. fold default_location. fold held. split; [done|].
    split; [by intros ->%Hheld|]. split; [|done].
    intros ->%Hfall. by rewrite own_get_own_set_eq.
  - unfold_service. simpl. fold default_location. fold held. split; [done|].
    split; [by intros ->%Hheld|]. split; [|done].
    intros ->%Hfall. by rewrite own_get_own_set_eq.
Qed.

(** The particular case of C3: nothing is stored and the result is [null]. *)
Lemma first_visit_no_position win el :
  getItem (js "mapSettings") win = None ->
  let w0 := MapService.construct win L.fresh in
  let nothing := MapService.Geolocation (MapService.Next None) in
  view_center (MapService.run [nothing; MapService.GetMap (Some el)] w0)
  = Some default_location
  /\ view_center (MapService.run [MapService.GetMap (Some el); nothing] w0)
     = Some default_location.
Proof.
  intros Hnone. simpl. rewrite construct_first_visit by auto.
  unfold_service. unfold view_center. simpl. done.
Qed.

(** C3, as stated, fails: stored settings without a location hold none
    before a [null] result and the default one after it. *)
Lemma failure_sets_missing_location :
  let w0 := MapService.construct (visit_with (json_text "{'zoom':12}")) L.fresh in
  let w1 := MapService.deliver (MapService.Next None) w0 in
  MapService.mapSettings (MapService.self w0) = JObj [ (js "zoom", JNum 12) ]
  /\ getProp (MapService.mapSettings (MapService.self w0)) (js "location")
     = Returns JUndefined
  /\ getProp (MapService.mapSettings (MapService.self w1)) (js "location")
     = Returns default_location
  /\ getProp (MapService.mapSettings (MapService.self w1)) (js "location")
     <> getProp (MapService.mapSettings (MapService.self w0)) (js "location").
Proof.
  split; [vm_compute; reflexivity|]. split; [vm_compute; reflexivity|].
  split; [vm_compute; reflexivity|]. vm_compute. intros [=].
Qed.

Lemma failure_keeps_truthy_location w n held :
  failure n = true ->
  getProp (MapService.mapSettings (MapService.self w)) (js "location") = Returns held ->
  ToBoolean held = true ->
  MapService.mapSettings (MapService.self (MapService.deliver n w))
  = MapService.mapSettings (MapService.self w).
Proof.
  destruct w as [win lf [s m u b]]. simpl. intros Hn Hheld Ht.
  assert (Hset : setProp s (js "location") (or_else held default_location) = Returns s).
  { rewrite or_else_truthy by done. destruct s; simpl in *; simplify_eq; try done.
    - destruct (own_get (js "location") props) as [x|] eqn:Hx.
      + simplify_eq. by rewrite own_set_same.
      + repeat case_decide; by simplify_eq.
    - destruct (own_get (js "location") props) as [x|] eqn:Hx; simpl in *; simplify_eq.
      by rewrite own_set_same. }
  destruct n as [[position|]|e|]; try discriminate.
  - unfold_service. simpl. destruct b; [|done]. simpl. rewrite Hheld. simpl.
    fold default_location. rewrite Hset. done.
  - unfold_service. simpl. destruct b; [|done]. simpl. rewrite Hheld. simpl.
    fold default_location. rewrite Hset. done.
Qed.

Lemma failure_touches_settings_only w n :
  failure n = true ->
  let w' := MapService.deliver n w in
  localStorage (MapService.window w') = localStorage (MapService.window w)
  /\ MapService.leaflet w' = MapService.leaflet w
  /\ MapService.map (MapService.self w') = MapService.map (MapService.self w)
  /\ MapService.userLocation (MapService.self w')
     = MapService.userLocation (MapService.self w).
Proof.
  destruct w as [win lf [s m u b]]. intros Hn.
  destruct n as [[position|]|e|]; try discriminate.
  - unfold_service. simpl. destruct b; [|done].
    repeat (case_match; simpl in *; simplify_eq); done.
  - unfold_service. simpl. destruct b; [|done].
    repeat (case_match; simpl in *; simplify_eq); done.
Qed.

(** C3, as amended: after a [null] result or an error, in any state of the
    service, settings that held a truthy location are unchanged, nothing is
    persisted and neither map nor marker is touched; settings that are an
    object without a truthy location get the default location.  On a first
    visit with a [null] result the view is centred on the default
    location, whether the result arrives before or after the map is
    created. *)
Theorem geolocation_failure_keeps_held_location :
  (forall w n held,
     failure n = true ->
     getProp (MapService.mapSettings (MapService.self w)) (js "location") = Returns held ->
     ToBoolean held = true ->
     MapService.mapSettings (MapService.self (MapService.deliver n w))
     = MapService.mapSettings (MapService.self w))
  /\ (forall w n,
        failure n = true ->
        let w' := MapService.deliver n w in
        localStorage (MapService.window w') = localStorage (MapService.window w)
        /\ MapService.leaflet w' = MapService.leaflet w
        /\ MapService.map (MapService.self w') = MapService.map (MapService.self w)
        /\ MapService.userLocation (MapService.self w')
           = MapService.userLocation (MapService.self w))
  /\ (forall w n props,
        MapService.subscribed (MapService.self w) = true ->
        MapService.mapSettings (MapService.self w) = JObj props ->
        failure n = true ->
        ToBoolean (default JUndefined (own_get (js "location") props)) = false ->
        getProp (MapService.mapSettings (MapService.self (MapService.deliver n w)))
          (js "location")
        = Returns default_location)
  /\ (forall win el,
        getItem (js "mapSettings") win = None ->
        let w0 := MapService.construct win L.fresh in
        let nothing := MapService.Geolocation (MapService.Next None) in
        view_center (MapService.run [nothing; MapService.GetMap (Some el)] w0)
        = Some default_location
        /\ view_center (MapService.run [MapService.GetMap (Some el); nothing] w0)
           = Some default_location).
Proof.
  split; [apply failure_keeps_truthy_location|].
  split; [apply failure_touches_settings_only|].
  split.
  - intros w n props Hsub Hs Hn Hfalsy.
    destruct (deliver_failure w n props Hsub Hs Hn) as (_ & _ & Hdefault & _).
    by apply Hdefault.
  - intros win el Hnone. by apply first_visit_no_position.
Qed.

(** ** The settings value over time *)

Lemma other_reads_closed s0 :
  location_closed (fun s => forall k, k <> js "location" -> getProp s k = getProp s0 k).
Proof.
  intros s v s' Hs Hset k Hk. rewrite <- (Hs k Hk).
  eapply getProp_setProp_ne; [|done]. congruence.
Qed.

Lemma not_nullish_closed : location_closed (fun s => nullish s = false).
Proof. intros s v s' _ Hset. by eapply setProp_not_nullish. Qed.

(** C10: whatever the geolocation observable delivers, and whatever else
    happens to the service afterwards, every property of the settings other
    than [location] reads as before; so does [zoom]. *)
Theorem geolocation_changes_location_only (w : MapService.World) :
  (forall n k,
     k <> js "location" ->
     getProp (MapService.mapSettings (MapService.self (MapService.deliver n w))) k
     = getProp (MapService.mapSettings (MapService.self w)) k)
  /\ (forall n,
        getProp (MapService.mapSettings (MapService.self (MapService.deliver n w))) (js "zoom")
        = getProp (MapService.mapSettings (MapService.self w)) (js "zoom"))
  /\ (forall ops,
        getProp (MapService.mapSettings (MapService.self (MapService.run ops w))) (js "zoom")
        = getProp (MapService.mapSettings (MapService.self w)) (js "zoom")).
Proof.
  pose proof (other_reads_closed (MapService.mapSettings (MapService.self w))) as Hclosed.
  assert (Hzoom : js "zoom" <> js "location").
  { intros H. symmetry in H. by apply zoom_is_not_location. }
  split; [|split].
  - intros n k Hk. by apply (deliver_keeps _ Hclosed n w).
  - intros n. by apply (deliver_keeps _ Hclosed n w).
  - intros ops. by apply (run_keeps _ Hclosed ops w).
Qed.

(** C2, on the code: a visit that finds the text [null] stored.  The text
    parses, so no fallback runs and the settings are [null] after
    initialization.  From then on [getMap] throws and creates no map, and a
    position that arrives changes neither the settings nor the stored entry:
    the assignment throws, the error handler logs and throws in turn. *)
Theorem stored_null_leaves_null_settings :
  getItem (js "mapSettings") (visit_with (js "null")) = Some (js "null")
  /\ JSON.parse (js "null") = Returns JNull
  /\ MapService.mapSettings (MapService.self null_service) = JNull
  /\ console (MapService.window null_service) = []
  /\ eval (MapService.getMap (Some 0%nat)) null_service
     = Throws (TypeError "Cannot read properties of null or undefined")
  /\ L.maps (MapService.leaflet (exec (MapService.getMap (Some 0%nat)) null_service)) = []
  /\ MapService.mapSettings
       (MapService.self
          (MapService.deliver (MapService.Next (Some (48.5, 2.25)%float)) null_service))
     = JNull
  /\ getItem (js "mapSettings")
       (MapService.window
          (MapService.deliver (MapService.Next (Some (48.5, 2.25)%float)) null_service))
     = Some (js "null")
  /\ uncaught
       (MapService.window
          (MapService.deliver (MapService.Next (Some (48.5, 2.25)%float)) null_service))
     = [ TypeError "Cannot read properties of null or undefined" ].
Proof. vm_compute. done. Qed.

(** X1: what holds of every other entry: initialization never throws; the
    settings are the defaults when the entry is absent, empty or does not
    parse (the parse error is logged), and the parsed value otherwise;
    unless the entry parses to [null] they are not null, and stay so whatever
    happens to the service afterwards. *)
Theorem settings_not_null_unless_stored_null (win : Window) (lf : L.Store) :
  let w := MapService.construct win lf in
  let entry := getItem (js "mapSettings") win in
  (forall w0, eval MapService.initializeMapSettings w0 = Returns tt)
  /\ (entry = None \/ entry = Some [] ->
      MapService.mapSettings (MapService.self w) = MapService.defaultMapSettings)
  /\ (forall text e,
        entry = Some text -> text <> [] -> JSON.parse text = Throws e ->
        MapService.mapSettings (MapService.self w) = MapService.defaultMapSettings
        /\ console (MapService.window w) = error_parsing e :: console win)
  /\ (forall text v,
        entry = Some text -> text <> [] -> JSON.parse text = Returns v ->
        MapService.mapSettings (MapService.self w) = v)
  /\ ((forall text, entry = Some text -> JSON.parse text <> Returns JNull) ->
      nullish (MapService.mapSettings (MapService.self w)) = false
      /\ forall ops,
           nullish (MapService.mapSettings (MapService.self (MapService.run ops w))) = false).
Proof.
  intros w entry.
  split; [apply initializeMapSettings_returns|].
  split; [intros H; by apply construct_settings_absent|].
  split; [intros text e H1 H2 H3; by apply (construct_settings_unparseable win lf text e)|].
  split; [intros text v H1 H2 H3; by apply (construct_settings_parsed win lf text v)|].
  intros Hnull. subst w entry.
  assert (Hw : nullish (MapService.mapSettings
                          (MapService.self (MapService.construct win lf))) = false).
  { destruct (getItem (js "mapSettings") win) as [text|] eqn:Hentry.
    - destruct text as [|c text].
      + by rewrite (proj1 (construct_settings_absent win lf (or_intror Hentry))).
      + destruct (JSON.parse (c :: text)) as [v|e] eqn:Hp.
        * rewrite (proj1 (construct_settings_parsed win lf _ v Hentry ltac:(done) Hp)).
          destruct v; try done.
          -- by apply parse_defined in Hp.
          -- by apply (Hnull _ eq_refl) in Hp.
        * by rewrite (proj1 (construct_settings_unparseable win lf _ e Hentry ltac:(done) Hp)).
    - by rewrite (proj1 (construct_settings_absent win lf (or_introl Hentry))). }
  split; [done|]. intros ops. by apply (run_keeps _ not_nullish_closed).
Qed.

(** ** The 3D overlay *)

Ltac unfold_page :=
  unfold MapPage.run, MapPage.step, MapPage.dispatch, MapPage.script_loaded,
    MapPage.script_failed, MapPage.ngAfterViewInit, MapPage.subscriber,
    MapPage.loadScript, MapPage.render3D, MapPage.render2D, MapPage.toggleUI,
    MapPage.initializeOSMBuildings, MapPage.new_OSMBuildings, MapPage.remove_overlay,
    MapPage.set_map, MapPage.set_osmb, MapPage.set_awaiting, MapPage.mapService,
    MapPage.window, MapPage.with_window, zoom_in,
    exec, eval, bind, gets, modify, lift, ret, throw, try_catch.

(** [toggleUI] touches the document only. *)
Lemma toggleUI_frame button w :
  let w' := exec (MapPage.toggleUI button) w in
  eval (MapPage.toggleUI button) w = Returns tt
  /\ MapPage.overlays w' = MapPage.overlays w
  /\ MapPage.self w' = MapPage.self w.
Proof. destruct w as [sw ovs t]. unfold_page. simpl. done. Qed.

(** What [toggleUI] leaves of the classes of an element. *)
Lemma toggleUI_classes button w e n :
  document (MapPage.window w) !! e = Some n ->
  exists n',
    document (MapPage.window (exec (MapPage.toggleUI button) w)) !! e = Some n'
    /\ tagName n' = tagName n
    /\ (e = button -> "active" ∈ classList n')
    /\ (e <> button -> tagName n = "button" -> "active" ∉ classList n').
Proof.
  destruct w as [[win lf st] ovs t]. unfold_page. simpl. intros Hn.
  destruct (decide (e = button)) as [->|Hne].
  - rewrite list_lookup_alter_eq, list_lookup_fmap, Hn. simpl. eexists. split; [reflexivity|].
    destruct (decide (tagName n = "button")); simpl; (split; [done|]); split; try done;
      intros _; set_solver.
  - rewrite list_lookup_alter_ne by done. rewrite list_lookup_fmap, Hn. simpl.
    eexists. split; [reflexivity|].
    destruct (decide (tagName n = "button")); simpl; (split; [done|]); split; try done.
    intros _ _ Hin. apply elem_of_difference in Hin as [_ Hin].
    apply Hin. by apply elem_of_singleton.
Qed.

(** C7: enabling 3D while the overlay is active leaves the page with the
    same overlay and creates none; enabling 3D twice in a row creates no
    overlay the second time, in any state of the page. *)
Theorem render3D_creates_no_second_overlay :
  (forall w o target,
     MapPage.osmb (MapPage.self w) = Some o ->
     let w' := MapPage.step w (MapPage.Click3D target) in
     MapPage.osmb (MapPage.self w') = Some o
     /\ MapPage.overlays w' = MapPage.overlays w)
  /\ (forall w first second,
        let w1 := MapPage.step w (MapPage.Click3D first) in
        let w2 := MapPage.step w1 (MapPage.Click3D second) in
        MapPage.osmb (MapPage.self w2) = MapPage.osmb (MapPage.self w1)
        /\ MapPage.overlays w2 = MapPage.overlays w1
        /\ (length (MapPage.overlays w2) <= S (length (MapPage.overlays w)))%nat).
Proof.
  split.
  - intros [[win lf st] ovs [m ob aw]] o target. simpl. intros ->. unfold_page. by simpl.
  - intros [[win lf st] ovs [m ob aw]] first second. unfold_page. simpl.
    destruct ob as [o|]; simpl.
    + split; [done|]. split; [done|]. lia.
    + destruct (OSMBuildings_defined win) eqn:Hdef; simpl; rewrite ?Hdef; simpl;
        (split; [done|]); (split; [done|]); rewrite ?length_app; simpl; lia.
Qed.

(** A click on the 3D button keeps every element and its tag. *)
Lemma click3D_document w button e n :
  document (MapPage.window w) !! e = Some n ->
  exists n',
    document (MapPage.window (MapPage.step w (MapPage.Click3D button))) !! e = Some n'
    /\ tagName n' = tagName n.
Proof.
  destruct w as [[win lf st] ovs [m ob aw]]. intros Hn.
  unfold MapPage.window in Hn. simpl in Hn.
  assert (Htoggled : exists n',
    alter (add_class "active") button
      ((fun n0 => if decide (tagName n0 = "button") then remove_class "active" n0 else n0)
         <$> document win) !! e = Some n' /\ tagName n' = tagName n).
  { destruct (decide (button = e)) as [->|Hne].
    - rewrite list_lookup_alter_eq, list_lookup_fmap, Hn. simpl.
      eexists. split; [reflexivity|]. by destruct (decide _).
    - rewrite list_lookup_alter_ne by done. rewrite list_lookup_fmap, Hn. simpl.
      eexists. split; [reflexivity|]. by destruct (decide _). }
  unfold_page. simpl in *. destruct ob as [o|]; simpl; [done|].
  destruct (OSMBuildings_defined win); simpl; [done|]. eauto.
Qed.

(** A click on the 2D button clears the overlay reference, takes the overlay
    it referred to off the map, and marks the button. *)
Lemma click2D_effect w button :
  let w' := MapPage.step w (MapPage.Click2D button) in
  MapPage.osmb (MapPage.self w') = None
  /\ MapPage.overlays w'
     = match MapPage.osmb (MapPage.self w) with
       | Some o =>
           alter (fun ov => {| MapPage.onMap := MapPage.onMap ov;
                               MapPage.settings := MapPage.settings ov;
                               MapPage.source := MapPage.source ov;
                               MapPage.attached := false |}) o (MapPage.overlays w)
       | None => MapPage.overlays w
       end
  /\ forall e n,
       document (MapPage.window w) !! e = Some n ->
       exists n',
         document (MapPage.window w') !! e = Some n'
         /\ (e = button -> "active" ∈ classList n')
         /\ (e <> button -> tagName n = "button" -> "active" ∉ classList n').
Proof.
  destruct w as [[win lf st] ovs [m ob aw]]. simpl.
  split; [|split].
  - unfold_page. simpl. by destruct ob.
  - unfold_page. simpl. by destruct ob.
  - intros e n Hn.
    destruct (toggleUI_classes button
                {| MapPage.service := {| MapService.window := win; MapService.leaflet := lf;
                                         MapService.self := st |};
                   MapPage.overlays := ovs;
                   MapPage.self := {| MapPage.map := m; MapPage.osmb := ob;
                                      MapPage.awaiting := aw |} |} e n Hn)
      as (n' & Hn' & _ & Hin & Hout).
    exists n'. split; [|done]. revert Hn'. unfold_page. simpl. by destruct ob.
Qed.

(** C8: enabling 3D on its button and then disabling it on the 2D button
    leaves no overlay reference, the overlay that was active off the map, the
    2D button marked active and the 3D button not; disabling 3D without an
    overlay changes nothing about overlays. *)
Theorem toggle_3D_then_2D :
  (forall w b3 b2 n3 n2,
     b3 <> b2 ->
     document (MapPage.window w) !! b3 = Some n3 ->
     tagName n3 = "button" ->
     document (MapPage.window w) !! b2 = Some n2 ->
     let w1 := MapPage.step w (MapPage.Click3D b3) in
     let w2 := MapPage.step w1 (MapPage.Click2D b2) in
     MapPage.osmb (MapPage.self w2) = None
     /\ (forall o ov,
           MapPage.osmb (MapPage.self w1) = Some o ->
           MapPage.overlays w1 !! o = Some ov ->
           MapPage.attached <$> MapPage.overlays w2 !! o = Some false)
     /\ (exists cs, classes_of w2 b2 = Some cs /\ "active" ∈ cs)
     /\ (exists cs, classes_of w2 b3 = Some cs /\ "active" ∉ cs))
  /\ (forall w target,
        MapPage.osmb (MapPage.self w) = None ->
        let w' := MapPage.step w (MapPage.Click2D target) in
        MapPage.osmb (MapPage.self w') = None
        /\ MapPage.overlays w' = MapPage.overlays w).
Proof.
  split.
  - intros w b3 b2 n3 n2 Hne H3 Htag H2 w1 w2.
    destruct (click2D_effect w1 b2) as (Hosmb & Hovs & Hdoc). fold w2 in Hosmb, Hovs, Hdoc.
    destruct (click3D_document w b3 b3 n3 H3) as (n3' & H3' & Htag3).
    destruct (click3D_document w b3 b2 n2 H2) as (n2' & H2' & _).
    fold w1 in H3', H2'.
    split; [done|]. split; [|split].
    + intros o ov Ho Hov. rewrite Hovs, Ho, list_lookup_alter_eq, Hov. done.
    + destruct (Hdoc b2 n2' H2') as (n & Hn & Hin & _).
      exists (classList n). unfold classes_of. rewrite Hn. split; [done|]. by apply Hin.
    + destruct (Hdoc b3 n3' H3') as (n & Hn & _ & Hout).
      exists (classList n). unfold classes_of. rewrite Hn. split; [done|].
      apply Hout; [done|]. by rewrite Htag3.
  - intros w target Hnone w'.
    destruct (click2D_effect w target) as (Hosmb & Hovs & _). fold w' in Hosmb, Hovs.
    split; [done|]. by rewrite Hovs, Hnone.
Qed.

(** ** The script fails to load *)

(** No failure of the script writes a console line: the rejection reaches
    no [catch]. *)
Lemma script_failed_logs_nothing w :
  console (MapPage.window (MapPage.script_failed w)) = console (MapPage.window w)
  /\ MapPage.osmb (MapPage.self (MapPage.script_failed w)) = MapPage.osmb (MapPage.self w)
  /\ MapPage.map (MapPage.self (MapPage.script_failed w)) = MapPage.map (MapPage.self w)
  /\ MapPage.overlays (MapPage.script_failed w) = MapPage.overlays w
  /\ OSMBuildings_defined (MapPage.window (MapPage.script_failed w))
     = OSMBuildings_defined (MapPage.window w).
Proof.
  destruct w as [[win lf st] ovs [m ob aw]]. unfold_page. simpl.
  by destruct aw.
Qed.

(** C9, on the code: no failure of the script adds a console line.  The
    page opens on a first visit, the view is initialized and the script then
    fails to load: the page holds the map and 3D stays unavailable (a later
    click on the 3D button creates no overlay), but the console is empty;
    the rejection is left to the host as unhandled, and the [catch] of
    [ngAfterViewInit] never runs. *)
Theorem script_failure_is_not_logged :
  let w1 := first_page_loading in
  let w2 := MapPage.run [MapPage.ScriptFailed] w1 in
  let w3 := MapPage.run [MapPage.Click3D 1%nat] w2 in
  (forall w, console (MapPage.window (MapPage.script_failed w)) = console (MapPage.window w))
  /\ MapPage.awaiting (MapPage.self w1) = Some MapPage.script_url
  /\ MapPage.map (MapPage.self w2) = Some 0%nat
  /\ console (MapPage.window w2) = []
  /\ uncaught (MapPage.window w2)
     = [ Thrown (JStr (js ("Failed to load script: " ++ MapPage.script_url))) ]
  /\ MapPage.osmb (MapPage.self w2) = None
  /\ OSMBuildings_defined (MapPage.window w2) = false
  /\ MapPage.osmb (MapPage.self w3) = None
  /\ MapPage.overlays w3 = []
  /\ console (MapPage.window w3) = [].
Proof.
  split; [intros w; apply script_failed_logs_nothing|].
  vm_compute. done.
Qed.

(** ** The theorems at work *)

(** C4 on the red feature: the fill is the override, the weight the default. *)
Lemma getStyles_field_by_field_witness :
  getProp red_feature (js "properties")
  = Returns (JObj [ (js "style", JObj [ (js "fill", JStr (js "red")) ]) ])
  /\ exists result,
       MapService.getStyles red_feature = Returns result
       /\ getProp result (js "fillColor") = Returns (JStr (js "red"))
       /\ getProp result (js "weight") = Returns (JNum 2).
Proof.
  split; [vm_compute; reflexivity|].
  destruct (getStyles_field_by_field red_feature _ eq_refl) as [_ Hstyle].
  destruct (Hstyle eq_refl) as (result & Hresult & Hfields).
  exists result. split; [exact Hresult|]. split.
  - apply (Hfields "fill" "fillColor")%string; [|reflexivity].
    unfold style_fields. apply list_elem_of_here.
  - rewrite (proj2 (Hfields "weight" "weight" ltac:(unfold style_fields; apply list_elem_of_further, list_elem_of_here))%string eq_refl).
    vm_compute. reflexivity.
Defined.


(** A visit that finds settings stored. *)
Lemma settings_not_null_witness :
  getItem (js "mapSettings") (visit_with stored_settings)
  = Some (stored_settings)
  /\ JSON.parse (stored_settings) = Returns (located 48.5 2.25)
  /\ MapService.mapSettings
       (MapService.self
          (MapService.construct
             (visit_with stored_settings) L.fresh))
     = located 48.5 2.25
  /\ nullish
       (MapService.mapSettings
          (MapService.self
             (MapService.run
                [ MapService.Geolocation (MapService.Next None); MapService.GetMap None ]
                (MapService.construct
                   (visit_with stored_settings) L.fresh))))
     = false.
Proof.
  assert (Hentry : getItem (js "mapSettings")
                     (visit_with stored_settings)
                   = Some (stored_settings))
    by (vm_compute; reflexivity).
  assert (Hparse : JSON.parse (stored_settings)
                   = Returns (located 48.5 2.25)) by (vm_compute; reflexivity).
  destruct (settings_not_null_unless_stored_null
              (visit_with stored_settings) L.fresh)
    as (_ & _ & _ & Hparsed & Hnot_null).
  split; [exact Hentry|]. split; [exact Hparse|]. split.
  - apply (Hparsed _ _ Hentry); [|exact Hparse]. vm_compute. discriminate.
  - apply Hnot_null. intros text Htext. rewrite Hentry in Htext.
    injection Htext as <-. rewrite Hparse. vm_compute. discriminate.
Defined.

(** C3 on the first visit: the observable delivers [null]. *)
Lemma geolocation_failure_witness :
  failure (MapService.Next None) = true
  /\ getProp (MapService.mapSettings (MapService.self first_service)) (js "location")
     = Returns default_location
  /\ ToBoolean default_location = true
  /\ MapService.mapSettings
       (MapService.self (MapService.deliver (MapService.Next None) first_service))
     = MapService.mapSettings (MapService.self first_service)
  /\ getItem (js "mapSettings") first_visit = None
  /\ view_center
       (MapService.run
          [ MapService.Geolocation (MapService.Next None); MapService.GetMap (Some 0%nat) ]
          first_service)
     = Some default_location.
Proof.
  destruct geolocation_failure_keeps_held_location as (Hkept & _ & _ & Hfirst).
  assert (Hheld : getProp (MapService.mapSettings (MapService.self first_service))
                    (js "location") = Returns default_location)
    by (vm_compute; reflexivity).
  assert (Hnone : getItem (js "mapSettings") first_visit = None) by (vm_compute; reflexivity).
  destruct (Hfirst first_visit 0%nat Hnone) as (Hview & _).
  split; [reflexivity|]. split; [exact Hheld|]. split; [reflexivity|].
  split; [|split; [exact Hnone | exact Hview]].
  apply (Hkept first_service (MapService.Next None) default_location);
    [reflexivity | exact Hheld | reflexivity].
Defined.

(** C10 on the first visit: a position leaves the zoom alone. *)
Lemma geolocation_changes_location_only_witness :
  js "zoom" <> js "location"
  /\ getProp
       (MapService.mapSettings
          (MapService.self
             (MapService.deliver (MapService.Next (Some (48.5, 2.25)%float)) first_service)))
       (js "zoom")
     = Returns (JNum 19).
Proof.
  assert (Hne : js "zoom" <> js "location") by (vm_compute; discriminate).
  split; [exact Hne|].
  rewrite (proj1 (geolocation_changes_location_only first_service) _ _ Hne).
  vm_compute. reflexivity.
Defined.

(** C7 on the first visit: the overlay the loaded script has put on the map
    is the one the page keeps when the 3D button is clicked. *)
Lemma render3D_witness :
  MapPage.osmb (MapPage.self (MapPage.run [MapPage.ScriptLoaded] first_page_loading))
  = Some 0%nat
  /\ MapPage.osmb
       (MapPage.self
          (MapPage.step (MapPage.run [MapPage.ScriptLoaded] first_page_loading)
             (MapPage.Click3D 1%nat)))
     = Some 0%nat
  /\ length
       (MapPage.overlays
          (MapPage.step (MapPage.run [MapPage.ScriptLoaded] first_page_loading)
             (MapPage.Click3D 1%nat)))
     = 1%nat.
Proof.
  assert (Hactive : MapPage.osmb
                      (MapPage.self (MapPage.run [MapPage.ScriptLoaded] first_page_loading))
                    = Some 0%nat) by (vm_compute; reflexivity).
  destruct (proj1 render3D_creates_no_second_overlay _ 0%nat 1%nat Hactive) as [Hsame Hovs].
  split; [exact Hactive|]. split; [exact Hsame|].
  rewrite Hovs. vm_compute. reflexivity.
Defined.

(** C8 on the first visit, once the script has loaded: 3D on button 1, then
    2D on button 2. *)
Lemma toggle_3D_then_2D_witness :
  1%nat <> 2%nat
  /\ tagName <$> document (MapPage.window (MapPage.run [MapPage.ScriptLoaded] first_page_loading))
       !! 1%nat = Some "button"
  /\ is_Some (document (MapPage.window (MapPage.run [MapPage.ScriptLoaded] first_page_loading))
                !! 2%nat)
  /\ MapPage.osmb
       (MapPage.self
          (MapPage.run [MapPage.ScriptLoaded; MapPage.Click3D 1%nat; MapPage.Click2D 2%nat]
             first_page_loading))
     = None
  /\ exists cs,
       classes_of
         (MapPage.run [MapPage.ScriptLoaded; MapPage.Click3D 1%nat; MapPage.Click2D 2%nat]
            first_page_loading) 1%nat
       = Some cs
       /\ "active" ∉ cs.
Proof.
  assert (Hne : 1%nat <> 2%nat) by discriminate.
  destruct (document (MapPage.window (MapPage.run [MapPage.ScriptLoaded] first_page_loading))
              !! 1%nat) as [n3|] eqn:H3; [|vm_compute in H3; discriminate].
  destruct (document (MapPage.window (MapPage.run [MapPage.ScriptLoaded] first_page_loading))
              !! 2%nat) as [n2|] eqn:H2; [|vm_compute in H2; discriminate].
  assert (Htag : tagName n3 = "button").
  { vm_compute in H3. injection H3 as <-. reflexivity. }
  destruct (proj1 toggle_3D_then_2D _ 1%nat 2%nat n3 n2 Hne H3 Htag H2)
    as (Hosmb & _ & _ & Hoff).
  split; [exact Hne|]. split; [simpl; by rewrite Htag|]. split; [by eexists|].
  split; [exact Hosmb | exact Hoff].
Defined.

(** * Further properties

    Properties of the two classes beyond the design document: the edges of
    each method, what the methods leave alone, and invariants of the service
    and of the page over sequences of events.  Where a property depends on
    Leaflet carrying out what it is asked, it is stated for a service
    constructed with [presentable] settings and for [tame] operations, so
    that every request is one Leaflet accepts. *)

(** ** Settings and operations Leaflet accepts *)

Lemma presentable_default : presentable MapService.defaultMapSettings.
Proof. eexists _, _, _, _. repeat split; reflexivity. Qed.

Lemma presentable_located lat lng : on_globe lat lng = true -> presentable (located lat lng).
Proof. intros Hg. eexists _, lat, lng, _. repeat split; try reflexivity. exact Hg. Qed.

Lemma presentable_object s :
  presentable s ->
  exists props loc,
    s = JObj props /\ own_get (js "location") props = Some loc /\ ToBoolean loc = true.
Proof. intros (props & lat & lng & z & -> & Hl & _). by eexists props, _. Qed.

Lemma presentable_assign props lat lng :
  presentable (JObj props) -> on_globe lat lng = true ->
  presentable (JObj (own_set (js "location") (JArr [JNum lat; JNum lng] []) props)).
Proof.
  intros (props' & lat0 & lng0 & z & [= <-] & _ & _ & Hz & Ht) Hg.
  eexists _, lat, lng, z. split; [reflexivity|]. split; [apply own_get_own_set_eq|].
  split; [exact Hg|]. split; [|exact Ht].
  by rewrite own_get_own_set_ne by apply zoom_is_not_location.
Qed.

Lemma getMap_frame element w :
  let w' := exec (MapService.getMap element) w in
  localStorage (MapService.window w') = localStorage (MapService.window w)
  /\ MapService.mapSettings (MapService.self w') = MapService.mapSettings (MapService.self w)
  /\ MapService.subscribed (MapService.self w') = MapService.subscribed (MapService.self w).
Proof.
  destruct w as [win lf [s m u b]]. unfold_service.
  unfold MapService.with_self, MapService.with_window, MapService.with_leaflet. simpl.
  destruct m as [h|]; simpl; [done|]. destruct element as [el|]; simpl; [|done].
  destruct s; simpl; repeat (case_match; simpl in *; simplify_eq); done.
Qed.

Lemma renderGeoJson_keeps_settings data w :
  MapService.mapSettings (MapService.self (exec (MapService.renderGeoJson data) w))
  = MapService.mapSettings (MapService.self w).
Proof.
  destruct w as [win lf [s m u b]]. unfold_service. simpl.
  repeat (case_match; simpl in *; simplify_eq); done.
Qed.

Lemma presentable_step w op :
  coherent w -> tame op = true ->
  presentable (MapService.mapSettings (MapService.self w)) ->
  presentable (MapService.mapSettings (MapService.self (MapService.step w op))).
Proof.
  intros Hcoh Hop Hs. destruct op as [n|element|data]; simpl.
  - destruct (MapService.subscribed (MapService.self w)) eqn:Hsub;
      [|unfold MapService.deliver; by rewrite Hsub].
    destruct (presentable_object _ Hs) as (props & loc & Hprops & Hloc & Ht).
    assert (Hheld : getProp (MapService.mapSettings (MapService.self w)) (js "location")
                    = Returns loc) by (rewrite Hprops; simpl; by rewrite Hloc).
    destruct n as [[[lat lng]|]|e|].
    + destruct (deliver_position w lat lng props Hsub Hprops Hcoh) as (-> & _).
      rewrite Hprops in Hs. by apply presentable_assign.
    + by rewrite (failure_keeps_truthy_location w (MapService.Next None) loc).
    + by rewrite (failure_keeps_truthy_location w (MapService.Error e) loc).
    + destruct w as [win lf [s m u b]]. simpl in *. subst b. exact Hs.
  - by rewrite (proj1 (proj2 (getMap_frame element w))).
  - by rewrite renderGeoJson_keeps_settings.
Qed.

Lemma presentable_run ops : forall w,
  coherent w -> forallb tame ops = true ->
  presentable (MapService.mapSettings (MapService.self w)) ->
  presentable (MapService.mapSettings (MapService.self (MapService.run ops w))).
Proof.
  induction ops as [|op ops IH]; intros w Hcoh Hops Hs; simpl in *; [done|].
  apply andb_prop in Hops as [Hop Hops].
  apply IH; [by apply coherent_step | done | by apply presentable_step].
Qed.

Lemma presentable_not_nullish s : presentable s -> nullish s = false.
Proof. by intros (props & lat & lng & z & -> & _). Qed.

Lemma presentable_first_visit : presentable (MapService.mapSettings (MapService.self first_service)).
Proof.
  unfold first_service. rewrite construct_first_visit by (left; reflexivity). simpl.
  apply presentable_default.
Qed.

Lemma presentable_stored_settings :
  presentable
    (MapService.mapSettings
       (MapService.self (MapService.construct (visit_with stored_settings) L.fresh))).
Proof.
  rewrite (proj1 (construct_settings_parsed (visit_with stored_settings) L.fresh
                    stored_settings (located 48.5 2.25) eq_refl
                    ltac:(vm_compute; discriminate) ltac:(vm_compute; reflexivity))).
  by apply presentable_located.
Qed.

(** ** Storage *)

Lemma getMap_keeps_storage element w :
  localStorage (MapService.window (exec (MapService.getMap element) w))
  = localStorage (MapService.window w).
Proof.
  destruct w as [win lf [s m u b]]. unfold_service. simpl.
  repeat (case_match; simpl in *; simplify_eq); done.
Qed.

Lemma renderGeoJson_keeps_storage data w :
  localStorage (MapService.window (exec (MapService.renderGeoJson data) w))
  = localStorage (MapService.window w).
Proof.
  destruct w as [win lf [s m u b]]. unfold_service. simpl.
  repeat (case_match; simpl in *; simplify_eq); done.
Qed.

Lemma step_keeps_storage w op :
  brings_position op = false ->
  localStorage (MapService.window (MapService.step w op))
  = localStorage (MapService.window w).
Proof.
  destruct op as [[[position|]|e|]|element|data]; simpl; try discriminate; intros _.
  - by apply (failure_touches_settings_only w (MapService.Next None)).
  - by apply (failure_touches_settings_only w (MapService.Error e)).
  - destruct w as [win lf [s m u b]]. unfold_service. simpl. by destruct b.
  - apply getMap_keeps_storage.
  - apply renderGeoJson_keeps_storage.
Qed.

Lemma construct_keeps_storage win lf :
  localStorage (MapService.window (MapService.construct win lf)) = localStorage win.
Proof.
  unfold MapService.construct, MapService.initializeMapSettings. unfold_service. simpl.
  destruct (getItem _ win) as [[|c text]|]; simpl; try done.
  destruct (JSON.parse (c :: text)); simpl; done.
Qed.

(** X2: storage is written by positions only: construction writes nothing, and
    no sequence of operations without a position changes storage. *)
Theorem storage_written_by_positions_only :
  (forall win lf,
     localStorage (MapService.window (MapService.construct win lf)) = localStorage win)
  /\ (forall ops w,
        forallb (fun op => negb (brings_position op)) ops = true ->
        localStorage (MapService.window (MapService.run ops w))
        = localStorage (MapService.window w)).
Proof.
  split; [apply construct_keeps_storage|].
  induction ops as [|op ops IH]; intros w Hops; simpl in *; [done|].
  apply andb_prop in Hops as [Hop Hops]. rewrite IH by done.
  apply step_keeps_storage. by destruct (brings_position op).
Qed.

Lemma storage_written_by_positions_only_witness :
  forallb (fun op => negb (brings_position op))
    [ MapService.Geolocation (MapService.Next None); MapService.GetMap (Some 0%nat);
      MapService.RenderGeoJson two_features; MapService.Geolocation MapService.Complete ]
  = true
  /\ localStorage
       (MapService.window
          (MapService.run
             [ MapService.Geolocation (MapService.Next None); MapService.GetMap (Some 0%nat);
               MapService.RenderGeoJson two_features;
               MapService.Geolocation MapService.Complete ]
             first_service))
     = localStorage (MapService.window first_service).
Proof.
  split; [reflexivity|].
  apply (proj2 storage_written_by_positions_only). reflexivity.
Defined.

(** ** Positions in sequence *)

Lemma own_set_own_set k v1 v2 props :
  own_set k v2 (own_set k v1 props) = own_set k v2 props.
Proof.
  induction props as [|[k' v'] rest IH]; simpl.
  - by rewrite decide_True.
  - destruct (decide (k' = k)) as [->|Hne]; simpl.
    + by rewrite decide_True.
    + rewrite decide_False by done. by rewrite IH.
Qed.

(** A position leaves the subscription open and the map handle alone. *)
Lemma deliver_position_frame w lat lng props :
  MapService.subscribed (MapService.self w) = true ->
  MapService.mapSettings (MapService.self w) = JObj props ->
  let w' := MapService.deliver (MapService.Next (Some (lat, lng))) w in
  MapService.subscribed (MapService.self w') = true
  /\ MapService.map (MapService.self w') = MapService.map (MapService.self w).
Proof.
  destruct w as [win lf [s m u b]]. simpl. intros -> ->.
  unfold_service. simpl. destruct m as [h|]; simpl; [|done].
  destruct u as [mk|]; simpl; done.
Qed.

(** X3: on a service constructed with presentable settings, after tame
    operations and while its subscription is open, of two positions on the
    globe in a row the second wins: the settings, the stored entry and, with
    a map, the marker and the view are those of the second; the settings
    stay presentable and the subscription open. *)
Theorem last_position_wins (win : Window) (ops : list MapService.Operation)
    (lat1 lng1 lat2 lng2 : float) :
  presentable (MapService.mapSettings (MapService.self (MapService.construct win L.fresh))) ->
  forallb tame ops = true ->
  on_globe lat1 lng1 = true -> on_globe lat2 lng2 = true ->
  let w := MapService.run ops (MapService.construct win L.fresh) in
  MapService.subscribed (MapService.self w) = true ->
  let second := JArr [JNum lat2; JNum lng2] [] in
  let w2 := MapService.deliver (MapService.Next (Some (lat2, lng2)))
              (MapService.deliver (MapService.Next (Some (lat1, lng1))) w) in
  exists props,
    MapService.mapSettings (MapService.self w) = JObj props
    /\ MapService.mapSettings (MapService.self w2) = JObj (own_set (js "location") second props)
    /\ getItem (js "mapSettings") (MapService.window w2)
       = JSON.stringify (JObj (own_set (js "location") second props))
    /\ presentable (MapService.mapSettings (MapService.self w2))
    /\ MapService.subscribed (MapService.self w2) = true
    /\ (is_Some (MapService.map (MapService.self w)) ->
        marker_position w2 = Some second /\ view_center w2 = Some second).
Proof.
  intros Hstart Hops Hg1 Hg2 w Hsub second w2.
  assert (Hcoh : coherent w) by apply coherent_run, coherent_construct.
  assert (Hpres : presentable (MapService.mapSettings (MapService.self w)))
    by (apply presentable_run; [apply coherent_construct | done | done]).
  destruct (presentable_object _ Hpres) as (props & loc & Hs & _).
  exists props. split; [exact Hs|].
  set (w1 := MapService.deliver (MapService.Next (Some (lat1, lng1))) w) in *.
  destruct (deliver_position w lat1 lng1 props Hsub Hs Hcoh) as (Hs1 & _).
  destruct (deliver_position_frame w lat1 lng1 props Hsub Hs) as (Hsub1 & Hmap1).
  fold w1 in Hs1, Hsub1, Hmap1.
  assert (Hcoh1 : coherent w1) by by apply coherent_deliver.
  destruct (deliver_position w1 lat2 lng2 _ Hsub1 Hs1 Hcoh1)
    as (Hs2 & _ & Hstored & Hmap & _).
  destruct (deliver_position_frame w1 lat2 lng2 _ Hsub1 Hs1) as (Hsub2 & _).
  fold w2 in Hs2, Hstored, Hmap, Hsub2. rewrite own_set_own_set in Hs2.
  split; [exact Hs2|]. split; [rewrite Hstored, Hs2; reflexivity|].
  split; [rewrite Hs2; apply presentable_assign; [by rewrite <- Hs | done]|].
  split; [exact Hsub2|].
  intros Hm. rewrite Hmap1 in Hmap. destruct (Hmap Hm) as (Hmarker & Hview & _). done.
Qed.

Lemma last_position_wins_witness :
  presentable (MapService.mapSettings (MapService.self first_service))
  /\ MapService.subscribed (MapService.self first_service_with_map) = true
  /\ view_center
       (MapService.deliver (MapService.Next (Some (48.5, 2.25)%float))
          (MapService.deliver (MapService.Next (Some (10, 20)%float)) first_service_with_map))
     = Some (JArr [JNum 48.5; JNum 2.25] [])
  /\ getItem (js "mapSettings")
       (MapService.window
          (MapService.deliver (MapService.Next (Some (48.5, 2.25)%float))
             (MapService.deliver (MapService.Next (Some (10, 20)%float))
                first_service_with_map)))
     = Some stored_settings.
Proof.
  assert (Hstart : presentable (MapService.mapSettings (MapService.self first_service)))
    by apply presentable_first_visit.
  assert (Hsub : MapService.subscribed (MapService.self first_service_with_map) = true)
    by (vm_compute; reflexivity).
  destruct (last_position_wins first_visit [MapService.GetMap (Some 0%nat)] 10 20 48.5 2.25
              Hstart eq_refl eq_refl eq_refl Hsub)
    as (props & Hprops & _ & Hstored & _ & _ & Hmap).
  assert (Hdefault : MapService.mapSettings (MapService.self first_service_with_map)
                     = MapService.defaultMapSettings) by (vm_compute; reflexivity).
  change (MapService.run [MapService.GetMap (Some 0%nat)] (MapService.construct first_visit L.fresh))
    with first_service_with_map in Hprops, Hstored, Hmap.
  rewrite Hdefault in Hprops. injection Hprops as <-.
  destruct Hmap as (_ & Hview); [by eexists; vm_compute|].
  split; [exact Hstart|]. split; [exact Hsub|]. split; [exact Hview|].
  rewrite Hstored. vm_compute. reflexivity.
Defined.

(** ** The view follows the settings *)

Lemma follows_settings_deliver n w : follows_settings w -> follows_settings (MapService.deliver n w).
Proof.
  intros (Hcoh & props & loc & Hs & Hloc & Ht & Hview).
  destruct (MapService.subscribed (MapService.self w)) eqn:Hsub;
    [|unfold MapService.deliver; rewrite Hsub; split; [done|]; by exists props, loc].
  destruct n as [[[lat lng]|]|e|].
  - destruct (deliver_position w lat lng props Hsub Hs Hcoh)
      as (Hs' & _ & _ & Hmap & Hnomap).
    destruct (deliver_position_frame w lat lng props Hsub Hs) as (_ & Hm').
    split; [by apply coherent_deliver|].
    exists (own_set (js "location") (JArr [JNum lat; JNum lng] []) props),
           (JArr [JNum lat; JNum lng] []).
    split; [done|]. split; [apply own_get_own_set_eq|]. split; [done|].
    rewrite Hm'. intros Hm. destruct (Hmap Hm) as (Hmk & Hc & Hz).
    split; [done|]. split; [done|].
    rewrite own_get_own_set_ne by apply zoom_is_not_location.
    rewrite Hs in Hz. simpl in Hz.
    apply fmap_Some in Hz as (z & Hz & [= ->]). exact Hz.
  - assert (Hf : failure (MapService.Next None) = true) by done.
    assert (Hheld : getProp (MapService.mapSettings (MapService.self w)) (js "location")
                    = Returns loc) by (rewrite Hs; simpl; by rewrite Hloc).
    pose proof (failure_keeps_truthy_location w _ loc Hf Hheld Ht) as Hs'.
    destruct (failure_touches_settings_only w _ Hf) as (_ & Hl & Hm & Hu).
    split; [by apply coherent_deliver|]. exists props, loc.
    split; [by rewrite Hs'|]. split; [done|]. split; [done|].
    unfold view_center, view_zoom, marker_position in *. by rewrite Hl, Hm, Hu.
  - assert (Hf : failure (MapService.Error e) = true) by done.
    assert (Hheld : getProp (MapService.mapSettings (MapService.self w)) (js "location")
                    = Returns loc) by (rewrite Hs; simpl; by rewrite Hloc).
    pose proof (failure_keeps_truthy_location w _ loc Hf Hheld Ht) as Hs'.
    destruct (failure_touches_settings_only w _ Hf) as (_ & Hl & Hm & Hu).
    split; [by apply coherent_deliver|]. exists props, loc.
    split; [by rewrite Hs'|]. split; [done|]. split; [done|].
    unfold view_center, view_zoom, marker_position in *. by rewrite Hl, Hm, Hu.
  - split; [by apply coherent_deliver|]. exists props, loc.
    destruct w as [win lf [s m u b]]. simpl in *. subst.
    unfold_service. simpl. done.
Qed.

Lemma follows_settings_getMap element w :
  follows_settings w -> follows_settings (exec (MapService.getMap element) w).
Proof.
  intros (Hcoh & props & loc & Hs & Hloc & Ht & Hview).
  destruct (MapService.map (MapService.self w)) as [h|] eqn:Hm.
  - unfold exec. rewrite (getMap_existing w h element Hm). simpl.
    split; [done|]. exists props, loc. rewrite Hm. done.
  - destruct element as [el|].
    + assert (Hc : getProp (MapService.mapSettings (MapService.self w)) (js "location")
                   = Returns loc) by (rewrite Hs; simpl; by rewrite Hloc).
      assert (Hz : getProp (MapService.mapSettings (MapService.self w)) (js "zoom")
                   = Returns (default JUndefined (own_get (js "zoom") props)))
        by by rewrite Hs.
      split; [by apply coherent_getMap|].
      unfold exec. rewrite (getMap_fresh w el _ _ Hm Hcoh Hc Hz). simpl.
      exists props, loc. done.
    + split; [by apply coherent_getMap|].
      unfold exec. rewrite (getMap_absent w Hm). simpl.
      exists props, loc. unfold view_center, view_zoom, marker_position. simpl.
      rewrite Hm. split; [done|]. split; [done|]. split; [done|]. by intros [? [=]].
Qed.

Lemma follows_settings_renderGeoJson data w :
  follows_settings w -> follows_settings (exec (MapService.renderGeoJson data) w).
Proof.
  intros (Hcoh & props & loc & Hs & Hloc & Ht & Hview).
  split; [by apply coherent_renderGeoJson|]. exists props, loc.
  destruct w as [win [maps markers] [s m u b]].
  unfold coherent, view_center, view_zoom, marker_position in *. simpl in *. subst s.
  unfold_service. simpl. destruct m as [h|]; simpl; [|done].
  destruct Hcoh as (-> & Hlen & Hu). destruct maps as [|mp [|]]; try discriminate.
  simpl in *.
  destruct (MapService.getStyles data) as [style|e]; simpl; done.
Qed.

Lemma follows_settings_run ops : forall w,
  follows_settings w -> follows_settings (MapService.run ops w).
Proof.
  induction ops as [|op ops IH]; intros w Hw; simpl; [done|].
  apply IH. destruct op as [n|element|data]; simpl.
  - by apply follows_settings_deliver.
  - by apply follows_settings_getMap.
  - by apply follows_settings_renderGeoJson.
Qed.

(** X4: on a service constructed with presentable settings, after tame
    operations, the settings are presentable and the view follows them:
    whenever the service holds a map, the map is centred on the location of
    the settings at their zoom, and the one marker stands on that
    location. *)
Theorem view_follows_settings (win : Window) (ops : list MapService.Operation) :
  presentable (MapService.mapSettings (MapService.self (MapService.construct win L.fresh))) ->
  forallb tame ops = true ->
  let w := MapService.run ops (MapService.construct win L.fresh) in
  presentable (MapService.mapSettings (MapService.self w)) /\ follows_settings w.
Proof.
  intros Hstart Hops w.
  split; [apply presentable_run; [apply coherent_construct | done | done]|].
  apply follows_settings_run. split; [apply coherent_construct|].
  destruct (presentable_object _ Hstart) as (props & loc & Hs & Hloc & Ht).
  exists props, loc. split; [done|]. split; [done|]. split; [done|].
  destruct (construct_self win L.fresh) as (_ & Hm & _). rewrite Hm. by intros [? [=]].
Qed.

Lemma view_follows_settings_witness :
  presentable (MapService.mapSettings (MapService.self first_service))
  /\ follows_settings
       (MapService.run
          [ MapService.GetMap (Some 0%nat);
            MapService.Geolocation (MapService.Next (Some (48.5, 2.25)%float));
            MapService.RenderGeoJson two_features ]
          (MapService.construct first_visit L.fresh))
  /\ JSON.parse stored_settings = Returns (located 48.5 2.25)
  /\ follows_settings
       (MapService.run
          [ MapService.Geolocation (MapService.Next None); MapService.GetMap (Some 0%nat) ]
          (MapService.construct (visit_with stored_settings) L.fresh)).
Proof.
  split; [apply presentable_first_visit|].
  split; [apply (view_follows_settings first_visit
                   [ MapService.GetMap (Some 0%nat);
                     MapService.Geolocation (MapService.Next (Some (48.5, 2.25)%float));
                     MapService.RenderGeoJson two_features ]
                   presentable_first_visit eq_refl)|].
  split; [vm_compute; reflexivity|].
  apply (view_follows_settings (visit_with stored_settings)
           [ MapService.Geolocation (MapService.Next None); MapService.GetMap (Some 0%nat) ]
           presentable_stored_settings eq_refl).
Defined.

(** ** The end of the subscription *)

Lemma deliver_closed n w :
  MapService.subscribed (MapService.self w) = false -> MapService.deliver n w = w.
Proof. intros H. unfold MapService.deliver. by rewrite H. Qed.

Lemma run_closed ns : forall w,
  MapService.subscribed (MapService.self w) = false ->
  MapService.run (MapService.Geolocation <$> ns) w = w.
Proof.
  induction ns as [|n ns IH]; intros w H; simpl; [done|].
  rewrite deliver_closed by done. by apply IH.
Qed.

Lemma recover_closes e w :
  MapService.subscribed (MapService.self (MapService.recover e w)) = false.
Proof.
  unfold MapService.recover.
  destruct (MapService.on_error e w) as [[v|e'] [win lf [s m u b]]]; done.
Qed.

Lemma deliver_error_closes e w :
  MapService.subscribed (MapService.self (MapService.deliver (MapService.Error e) w)) = false.
Proof.
  unfold MapService.deliver.
  destruct (MapService.subscribed (MapService.self w)) eqn:Hsub; [|done].
  apply recover_closes.
Qed.

Lemma deliver_complete_closes w :
  MapService.subscribed (MapService.self (MapService.deliver MapService.Complete w)) = false.
Proof.
  unfold MapService.deliver.
  destruct (MapService.subscribed (MapService.self w)) eqn:Hsub; [|done].
  by destruct w as [win lf [s m u b]].
Qed.

(** X5: once the geolocation observable has failed or completed, nothing it
    delivers reaches the service any more: the world after any further
    notifications is the world after the error, or the completion. *)
Theorem subscription_ends_with_error_or_completion
    (w : MapService.World) (ns : list MapService.Notification) :
  (forall e,
     MapService.run (MapService.Geolocation <$> ns) (MapService.deliver (MapService.Error e) w)
     = MapService.deliver (MapService.Error e) w)
  /\ MapService.run (MapService.Geolocation <$> ns) (MapService.deliver MapService.Complete w)
     = MapService.deliver MapService.Complete w.
Proof.
  split.
  - intros e. apply run_closed, deliver_error_closes.
  - apply run_closed, deliver_complete_closes.
Qed.

(** ** A position on settings that take no property *)

(** X6: settings that are [null] or a primitive take no [location]: the
    position is dropped.  The settings, the stored entry and Leaflet are as
    before; the [TypeError] of the assignment is logged as a geolocation
    error; the fallback of the error handler throws in its turn, which nobody
    handles; and the subscription is over. *)
Theorem position_on_unassignable_settings
    (w : MapService.World) (lat lng : float) (e : Exn) :
  MapService.subscribed (MapService.self w) = true ->
  setProp (MapService.mapSettings (MapService.self w)) (js "location") JUndefined = Throws e ->
  let w' := MapService.deliver (MapService.Next (Some (lat, lng))) w in
  MapService.mapSettings (MapService.self w') = MapService.mapSettings (MapService.self w)
  /\ localStorage (MapService.window w') = localStorage (MapService.window w)
  /\ MapService.leaflet w' = MapService.leaflet w
  /\ console (MapService.window w') = error_geolocation e :: console (MapService.window w)
  /\ (exists e', uncaught (MapService.window w') = e' :: uncaught (MapService.window w))
  /\ MapService.subscribed (MapService.self w') = false.
Proof.
  destruct w as [win lf [s m u b]]. simpl. intros -> He.
  destruct s; simpl in He; try discriminate; injection He as <-;
    unfold_service; simpl; (repeat split; try done); by eexists.
Qed.

Lemma position_on_unassignable_settings_witness :
  MapService.subscribed (MapService.self null_service) = true
  /\ MapService.mapSettings (MapService.self null_service) = JNull
  /\ let w' := MapService.deliver (MapService.Next (Some (48.5, 2.25)%float)) null_service in
     MapService.mapSettings (MapService.self w') = JNull
     /\ getItem (js "mapSettings") (MapService.window w') = Some (js "null")
     /\ MapService.subscribed (MapService.self w') = false.
Proof.
  assert (Hsub : MapService.subscribed (MapService.self null_service) = true)
    by (vm_compute; reflexivity).
  assert (Hnull : MapService.mapSettings (MapService.self null_service) = JNull)
    by (vm_compute; reflexivity).
  assert (Hthrows : setProp (MapService.mapSettings (MapService.self null_service))
                      (js "location") JUndefined
                    = Throws (TypeError "Cannot set properties of null or undefined"))
    by (rewrite Hnull; reflexivity).
  destruct (position_on_unassignable_settings null_service 48.5 2.25 _ Hsub Hthrows)
    as (Hs & Hstore & _ & _ & _ & Hclosed).
  split; [exact Hsub|]. split; [exact Hnull|].
  split; [by rewrite Hs|]. split; [|exact Hclosed].
  unfold getItem. rewrite Hstore. vm_compute. reflexivity.
Defined.

(** ** What path options always have *)

Lemma styled_fields f1 f2 f3 f4 f5 :
  let r := JObj [ (js "fillColor", f1); (js "weight", f2); (js "color", f3);
                  (js "fillOpacity", f4); (js "dashArray", f5) ] in
  getPropOpt r (js "fillColor") = f1
  /\ getPropOpt r (js "weight") = f2
  /\ getPropOpt r (js "color") = f3
  /\ getPropOpt r (js "fillOpacity") = f4
  /\ getPropOpt r (js "dashArray") = f5.
Proof. vm_compute. done. Qed.

Lemma or_else_default_truthy a d : ToBoolean d = true -> ToBoolean (or_else a d) = true.
Proof. intros Hd. unfold or_else. by destruct (ToBoolean a) eqn:Ha. Qed.

(** X7: [getStyles] throws exactly on a feature that is [null] or [undefined].
    On any other value it returns path options whose fill colour, weight,
    colour and fill opacity are truthy, and whose dash pattern is truthy or
    the empty string: no override can make a path without a fill colour, a
    border or an opacity. *)
Theorem getStyles_throws_on_nullish_only (feature : JSValue) :
  match MapService.getStyles feature with
  | Throws e => nullish feature = true
  | Returns style =>
      nullish feature = false
      /\ ToBoolean (getPropOpt style (js "fillColor")) = true
      /\ ToBoolean (getPropOpt style (js "weight")) = true
      /\ ToBoolean (getPropOpt style (js "color")) = true
      /\ ToBoolean (getPropOpt style (js "fillOpacity")) = true
      /\ (ToBoolean (getPropOpt style (js "dashArray")) = true
          \/ getPropOpt style (js "dashArray") = JStr [])
  end.
Proof.
  destruct (getProp feature (js "properties")) as [properties|e] eqn:Hp.
  - assert (Hnn : nullish feature = false) by (destruct feature; done).
    destruct (ToBoolean (getPropOpt properties (js "style"))) eqn:Hs.
    + rewrite (getStyles_with_style feature properties Hp Hs). cbv beta zeta.
      match goal with
      | |- context [JObj [ (_, ?f1); (_, ?f2); (_, ?f3); (_, ?f4); (_, ?f5) ]] =>
          destruct (styled_fields f1 f2 f3 f4 f5) as (-> & -> & -> & -> & ->)
      end.
      split; [done|].
      split; [by apply or_else_default_truthy|]. split; [by apply or_else_default_truthy|].
      split; [by apply or_else_default_truthy|]. split; [by apply or_else_default_truthy|].
      unfold or_else.
      destruct (ToBoolean (getPropOpt (getPropOpt properties (js "style")) (js "dashArray")))
        eqn:Hd; [by left | right; vm_compute; reflexivity].
    + rewrite (getStyles_no_style feature properties Hp Hs).
      split; [done|]. vm_compute. auto 10.
  - unfold MapService.getStyles. rewrite Hp.
    destruct feature; try done; simpl in Hp; repeat case_match; done.
Qed.

(** ** Rendering GeoJSON: the edges *)

Lemma getStyles_defined feature :
  nullish feature = false -> exists style, MapService.getStyles feature = Returns style.
Proof.
  intros Hn. destruct (getProp_defined feature (js "properties") Hn) as [p Hp].
  unfold MapService.getStyles. rewrite Hp. destruct (ToBoolean _); by eexists.
Qed.

(** X8: without a map [renderGeoJson] only warns, whatever the data, [null]
    included.  With a map, data that is [null] or [undefined] throws and
    changes nothing.  With a map and a featureless collection it returns,
    having added exactly one layer, last, with the style [getStyles]
    returned for the collection, and leaves the window, the markers, the
    view and the fields of the service alone. *)
Theorem renderGeoJson_edges (w : MapService.World) (data : JSValue) :
  (MapService.map (MapService.self w) = None ->
   MapService.renderGeoJson data w
   = (Returns tt, MapService.with_window (console_warn "Map not initialized") w))
  /\ (is_Some (MapService.map (MapService.self w)) -> nullish data = true ->
      exists e, MapService.renderGeoJson data w = (Throws e, w))
  /\ (forall m mp,
        MapService.map (MapService.self w) = Some m -> featureless data = true ->
        L.maps (MapService.leaflet w) !! m = Some mp ->
        let w' := exec (MapService.renderGeoJson data) w in
        eval (MapService.renderGeoJson data) w = Returns tt
        /\ (exists style,
              MapService.getStyles data = Returns style
              /\ L.layers <$> L.maps (MapService.leaflet w') !! m
                 = Some (L.layers mp ++ [L.GeoJSON data (L.StyleObject style)]))
        /\ (forall m', m' <> m ->
              L.maps (MapService.leaflet w') !! m' = L.maps (MapService.leaflet w) !! m')
        /\ L.markers (MapService.leaflet w') = L.markers (MapService.leaflet w)
        /\ view_center w' = view_center w
        /\ view_zoom w' = view_zoom w
        /\ MapService.window w' = MapService.window w
        /\ MapService.self w' = MapService.self w).
Proof.
  split; [|split].
  - intros Hm. unfold_service. simpl. by rewrite Hm.
  - intros [m Hm] Hn. unfold_service. simpl. rewrite Hm. simpl.
    destruct data; try discriminate; vm_compute; by eexists.
  - intros m mp Hm Hf Hmp w'.
    assert (Hn : nullish data = false) by (by destruct data).
    destruct (getStyles_defined data Hn) as [style Hs].
    subst w'. unfold exec, eval. rewrite (renderGeoJson_layer w data m style Hm Hs).
    destruct w as [win [maps markers] t]. simpl in *.
    split; [done|]. split.
    { exists style. split; [done|]. by rewrite list_lookup_alter_eq, Hmp. }
    split; [by intros m' Hne; rewrite list_lookup_alter_ne|].
    split; [done|].
    unfold view_center, view_zoom. simpl. rewrite Hm. simpl.
    rewrite list_lookup_alter_eq, Hmp. done.
Qed.

Lemma renderGeoJson_edges_witness :
  MapService.map (MapService.self first_service) = None
  /\ console (MapService.window (exec (MapService.renderGeoJson JNull) first_service))
     = [warn_no_map]
  /\ MapService.map (MapService.self first_service_with_map) = Some 0%nat
  /\ (exists e,
        MapService.renderGeoJson JNull first_service_with_map
        = (Throws e, first_service_with_map))
  /\ featureless two_features = true
  /\ length (L.maps (MapService.leaflet
                       (exec (MapService.renderGeoJson two_features) first_service_with_map)))
     = 1%nat
  /\ view_center (exec (MapService.renderGeoJson two_features) first_service_with_map)
     = Some default_location.
Proof.
  assert (Hnone : MapService.map (MapService.self first_service) = None)
    by (vm_compute; reflexivity).
  assert (Hsome : MapService.map (MapService.self first_service_with_map) = Some 0%nat)
    by (vm_compute; reflexivity).
  assert (Hnn : featureless two_features = true) by reflexivity.
  destruct (L.maps (MapService.leaflet first_service_with_map) !! 0%nat) as [mp|] eqn:Hmp;
    [|vm_compute in Hmp; discriminate].
  destruct (renderGeoJson_edges first_service JNull) as (Hwarn & _ & _).
  destruct (renderGeoJson_edges first_service_with_map JNull) as (_ & Hthrows & _).
  destruct (renderGeoJson_edges first_service_with_map two_features) as (_ & _ & Hadds).
  destruct (Hadds 0%nat mp Hsome Hnn Hmp) as (_ & _ & _ & _ & Hview & _).
  split; [exact Hnone|]. split; [unfold exec; rewrite (Hwarn Hnone); vm_compute; reflexivity|].
  split; [exact Hsome|].
  split; [apply Hthrows; [by eexists | reflexivity]|].
  split; [exact Hnn|].
  split; [vm_compute; reflexivity|].
  rewrite Hview. vm_compute. reflexivity.
Defined.

(** ** Settings that are an array *)

Transparent JSON.stringify.

Lemma stringify_array elems props :
  JSON.stringify (JArr elems props) = JSON.stringify (JArr elems [])
  /\ is_Some (JSON.stringify (JArr elems props)).
Proof. unfold JSON.stringify. simpl. split; [reflexivity|]. by eexists. Qed.

Opaque JSON.stringify.

(** X9: a stored text that parses to an array gives the service an array for
    its settings.  A position is then assigned to it as a named property,
    which [JSON.stringify] leaves out: the service holds the position, but
    what it stores is the array as before, without it. *)
Theorem position_on_array_settings
    (w : MapService.World) (lat lng : float)
    (elems : list JSValue) (props : list (jsstring * JSValue)) :
  MapService.subscribed (MapService.self w) = true ->
  MapService.mapSettings (MapService.self w) = JArr elems props ->
  let coords := JArr [JNum lat; JNum lng] [] in
  let w' := MapService.deliver (MapService.Next (Some (lat, lng))) w in
  getProp (MapService.mapSettings (MapService.self w')) (js "location") = Returns coords
  /\ getItem (js "mapSettings") (MapService.window w') = JSON.stringify (JArr elems []).
Proof.
  destruct w as [win lf [s m u b]]. simpl. intros -> ->.
  set (coords := JArr [JNum lat; JNum lng] []).
  set (s' := JArr elems (own_set (js "location") coords props)).
  destruct (stringify_array elems (own_set (js "location") coords props))
    as (Hsame & text & Htext). fold s' in Hsame, Htext.
  assert (Hloc : getProp s' (js "location") = Returns coords)
    by (subst s'; simpl; by rewrite own_get_own_set_eq).
  destruct (getProp_defined s' (js "zoom") eq_refl) as [z Hz].
  rewrite <- Hsame, Htext. clear Hsame.
  unfold_service. unfold getItem, setItem.
  cbn -[getProp js own_set]. fold coords. fold s'. rewrite Htext.
  destruct m as [h|]; [destruct u as [mk|]|];
    cbn -[getProp js own_set]; rewrite ?Hloc, ?Hz; cbn -[getProp js own_set];
    rewrite ?Hloc, ?Hz; cbn -[getProp js own_set]; rewrite ?Hloc, ?Hz;
    cbn -[getProp js own_set]; rewrite lookup_insert_eq; done.
Qed.

Lemma position_on_array_settings_witness :
  let w := MapService.construct (visit_with (js "[]")) L.fresh in
  MapService.subscribed (MapService.self w) = true
  /\ MapService.mapSettings (MapService.self w) = JArr [] []
  /\ getItem (js "mapSettings")
       (MapService.window (MapService.deliver (MapService.Next (Some (48.5, 2.25)%float)) w))
     = Some (js "[]").
Proof.
  intros w.
  assert (Hsub : MapService.subscribed (MapService.self w) = true) by (vm_compute; reflexivity).
  assert (Hs : MapService.mapSettings (MapService.self w) = JArr [] [])
    by (vm_compute; reflexivity).
  destruct (position_on_array_settings w 48.5 2.25 [] [] Hsub Hs) as (_ & Hstored).
  split; [exact Hsub|]. split; [exact Hs|]. rewrite Hstored. vm_compute. reflexivity.
Defined.


(** ** How the map is dressed *)

Lemma dressed_deliver n w : dressed w -> dressed (MapService.deliver n w).
Proof.
  destruct w as [win [maps markers] [s m u b]]. unfold dressed. simpl.
  destruct b; [|done]. destruct m as [h|].
  - intros (-> & -> & [el c z ls fl] & [ll o] & geo & -> & -> & Hl & Hg & Hf & Ho & Hc).
    simpl in *. subst.
    destruct n as [[[lat lng]|]|e|]; unfold_service;
      unfold MapService.with_self, MapService.with_window, MapService.with_leaflet,
        L.setLatLng, L.flyTo; simpl;
      destruct s; simpl;
      repeat (case_match; simpl in *; simplify_eq);
      (split; [done|]); (split; [done|]); eexists _, _, geo; simpl; done.
  - intros (-> & -> & ->).
    destruct n as [[[lat lng]|]|e|]; unfold_service;
      unfold MapService.with_self, MapService.with_window, MapService.with_leaflet; simpl;
      destruct s; simpl;
      repeat (case_match; simpl in *; simplify_eq); done.
Qed.

Lemma dressed_coherent w : dressed w -> coherent w.
Proof.
  unfold dressed, coherent. destruct (MapService.map _) as [h|]; [|done].
  intros (-> & -> & mp & mk & geo & -> & -> & _). done.
Qed.

Lemma dressed_getMap element w : dressed w -> dressed (exec (MapService.getMap element) w).
Proof.
  intros Hw. destruct (MapService.map (MapService.self w)) as [h|] eqn:Hm.
  - unfold exec. by rewrite (getMap_existing w h element Hm).
  - destruct element as [el|].
    + destruct (nullish (MapService.mapSettings (MapService.self w))) eqn:Hn.
      * unfold exec. by rewrite (getMap_on_nullish_settings w el Hm Hn).
      * destruct (getProp_defined _ (js "location") Hn) as [c Hc].
        destruct (getProp_defined _ (js "zoom") Hn) as [z Hz].
        unfold exec.
        rewrite (getMap_fresh w el c z Hm (dressed_coherent w Hw) Hc Hz).
        unfold dressed. simpl. split; [done|]. split; [done|].
        eexists _, _, []. by repeat split.
    + unfold exec. rewrite (getMap_absent w Hm).
      unfold dressed in *. simpl. by rewrite Hm in *.
Qed.

Lemma dressed_renderGeoJson data w :
  dressed w -> dressed (exec (MapService.renderGeoJson data) w).
Proof.
  destruct w as [win [maps markers] [s m u b]]. unfold dressed. simpl.
  destruct m as [h|].
  - intros (-> & -> & [el c z ls fl] & mk & geo & -> & -> & Hl & Hg & Hf & Ho & Hc).
    simpl in *. subst. unfold_service. simpl.
    destruct (MapService.getStyles data) as [style|e] eqn:Hs; simpl.
    + split; [done|]. split; [done|]. eexists _, mk, (geo ++ [_]). simpl.
      repeat split; try done. apply Forall_app. split; [done|].
      apply Forall_singleton. exact Hs.
    + split; [done|]. split; [done|]. eexists _, mk, geo. simpl. done.
  - intros (-> & -> & ->). unfold_service. simpl. done.
Qed.

Lemma map_dressed_at_construction win : dressed (MapService.construct win L.fresh).
Proof.
  unfold dressed. destruct (construct_self win L.fresh) as (-> & -> & -> & _). done.
Qed.

Lemma dressed_run ops : forall w, dressed w -> dressed (MapService.run ops w).
Proof.
  induction ops as [|op ops IH]; intros w Hw; simpl; [done|].
  apply IH. destruct op as [n|element|data]; simpl.
  - by apply dressed_deliver.
  - by apply dressed_getMap.
  - by apply dressed_renderGeoJson.
Qed.

(** X10: on a service constructed with presentable settings, after tame
    operations, the map is dressed as the service dresses it: it is the only
    map; its layers are the tile layer, then the one location marker, then
    the GeoJSON layers in the order they were rendered, each with the style
    [getStyles] returned for it; it was last flown with the animation
    options of the service; it is centred where the marker stands; and the
    view it was last asked for is a position on the globe at a zoom of the
    tile layer. *)
Theorem map_is_dressed (win : Window) (ops : list MapService.Operation) :
  presentable (MapService.mapSettings (MapService.self (MapService.construct win L.fresh))) ->
  forallb tame ops = true ->
  let w := MapService.run ops (MapService.construct win L.fresh) in
  dressed w
  /\ (forall c, view_center w = Some c ->
        exists lat lng, c = JArr [JNum lat; JNum lng] [] /\ on_globe lat lng = true)
  /\ (forall z, view_zoom w = Some z -> exists x, z = JNum x /\ on_tiles x = true).
Proof.
  intros Hstart Hops w.
  split; [apply dressed_run, map_dressed_at_construction|].
  assert (Hpres : presentable (MapService.mapSettings (MapService.self w)))
    by (apply presentable_run; [apply coherent_construct | done | done]).
  assert (Hfollows : follows_settings w).
  { apply follows_settings_run. split; [apply coherent_construct|].
    destruct (presentable_object _ Hstart) as (props & loc & Hs & Hloc & Ht).
    exists props, loc. split; [done|]. split; [done|]. split; [done|].
    destruct (construct_self win L.fresh) as (_ & Hm & _). rewrite Hm. by intros [? [=]]. }
  destruct Hfollows as (_ & props & loc & Hs & Hloc & _ & Hview).
  destruct Hpres as (props' & lat & lng & x & Hs' & Hloc' & Hg & Hz & Ht).
  rewrite Hs in Hs'. injection Hs' as <-. rewrite Hloc in Hloc'. injection Hloc' as ->.
  split.
  - intros c Hc.
    assert (Hm : is_Some (MapService.map (MapService.self w))).
    { unfold view_center in Hc. destruct (MapService.map (MapService.self w)); [by eexists|done]. }
    destruct (Hview Hm) as (Hc' & _). rewrite Hc' in Hc. injection Hc as <-. by exists lat, lng.
  - intros z Hzoom.
    assert (Hm : is_Some (MapService.map (MapService.self w))).
    { unfold view_zoom in Hzoom. destruct (MapService.map (MapService.self w)); [by eexists|done]. }
    destruct (Hview Hm) as (_ & _ & Hz'). rewrite Hz', Hz in Hzoom. injection Hzoom as <-.
    by exists x.
Qed.

Lemma map_is_dressed_witness :
  presentable (MapService.mapSettings (MapService.self first_service))
  /\ dressed
       (MapService.run
          [ MapService.Geolocation (MapService.Next (Some (48.5, 2.25)%float));
            MapService.GetMap (Some 0%nat);
            MapService.RenderGeoJson two_features;
            MapService.Geolocation (MapService.Next None) ]
          (MapService.construct first_visit L.fresh)).
Proof.
  split; [apply presentable_first_visit|].
  apply (map_is_dressed first_visit
           [ MapService.Geolocation (MapService.Next (Some (48.5, 2.25)%float));
             MapService.GetMap (Some 0%nat);
             MapService.RenderGeoJson two_features;
             MapService.Geolocation (MapService.Next None) ]
           presentable_first_visit eq_refl).
Defined.

(** ** The view is initialized *)

(** [ngAfterViewInit] when [getMap] returns: the page takes what it
    emitted, appends the script element and waits for it. *)
Lemma ngAfterViewInit_returns w m sw :
  MapService.getMap (getElementById "map" (MapPage.window w)) (MapPage.service w)
  = (Returns m, sw) ->
  MapPage.step w MapPage.ViewInit
  = {| MapPage.service :=
         MapService.with_window (with_document (fun doc => doc ++ [script_element])) sw;
       MapPage.overlays := MapPage.overlays w;
       MapPage.self := {| MapPage.map := m; MapPage.osmb := MapPage.osmb (MapPage.self w);
                          MapPage.awaiting := Some MapPage.script_url |} |}.
Proof.
  destruct w as [sw0 ovs [m0 ob aw]]. unfold MapPage.window. simpl. intros Hget.
  unfold MapPage.step, MapPage.dispatch, MapPage.ngAfterViewInit, MapPage.mapService,
    MapPage.window, zoom_in, try_catch, bind, gets. simpl.
  rewrite Hget. reflexivity.
Qed.

(** [ngAfterViewInit] when [getMap] throws: the [catch] logs the error and
    the page is as it was. *)
Lemma ngAfterViewInit_throws w e sw :
  MapService.getMap (getElementById "map" (MapPage.window w)) (MapPage.service w)
  = (Throws e, sw) ->
  MapPage.step w MapPage.ViewInit
  = {| MapPage.service :=
         MapService.with_window (console_error "Error loading OSMBuildings script:" (Some e)) sw;
       MapPage.overlays := MapPage.overlays w;
       MapPage.self := MapPage.self w |}.
Proof.
  destruct w as [sw0 ovs [m0 ob aw]]. unfold MapPage.window. simpl. intros Hget.
  unfold MapPage.step, MapPage.dispatch, MapPage.ngAfterViewInit, MapPage.mapService,
    MapPage.window, zoom_in, try_catch, bind, gets. simpl.
  rewrite Hget. reflexivity.
Qed.

(** X11: on the page of a visit whose service was constructed with
    presentable settings and has seen tame operations, with the map
    container in the document, the view initialization leaves the page
    holding the one map of the service, with the script element appended to
    the document and the page waiting for it; nothing is logged. *)
Theorem view_init_hands_over_the_map
    (win : Window) (ops : list MapService.Operation) (el : Element) :
  presentable (MapService.mapSettings (MapService.self (MapService.construct win L.fresh))) ->
  forallb tame ops = true ->
  let w := page_after ops win in
  getElementById "map" (MapPage.window w) = Some el ->
  let w' := MapPage.step w MapPage.ViewInit in
  MapPage.map (MapPage.self w') = Some 0%nat
  /\ MapService.map (MapService.self (MapPage.service w')) = Some 0%nat
  /\ length (L.maps (MapService.leaflet (MapPage.service w'))) = 1%nat
  /\ document (MapPage.window w') = document (MapPage.window w) ++ [script_element]
  /\ MapPage.awaiting (MapPage.self w') = Some MapPage.script_url
  /\ console (MapPage.window w') = console (MapPage.window w)
  /\ uncaught (MapPage.window w') = uncaught (MapPage.window w)
  /\ MapPage.overlays w' = MapPage.overlays w
  /\ MapPage.osmb (MapPage.self w') = MapPage.osmb (MapPage.self w).
Proof.
  intros Hstart Hops w Hel w'. subst w'.
  assert (Hcoh : coherent (MapPage.service w)) by apply coherent_run, coherent_construct.
  assert (Hnn : nullish (MapService.mapSettings (MapService.self (MapPage.service w))) = false).
  { apply presentable_not_nullish, presentable_run; [apply coherent_construct | done | done]. }
  clearbody w.
  destruct (MapService.map (MapService.self (MapPage.service w))) as [h|] eqn:Hm.
  - pose proof (getMap_existing (MapPage.service w) h
                  (getElementById "map" (MapPage.window w)) Hm) as Hget.
    rewrite (ngAfterViewInit_returns w _ _ Hget).
    unfold coherent in Hcoh. rewrite Hm in Hcoh. destruct Hcoh as (-> & Hlen & _).
    unfold MapPage.window. simpl. by rewrite Hm.
  - destruct (getProp_defined _ (js "location") Hnn) as [c Hc].
    destruct (getProp_defined _ (js "zoom") Hnn) as [z Hz].
    pose proof (getMap_fresh (MapPage.service w) el c z Hm Hcoh Hc Hz) as Hget.
    unfold MapPage.window in Hel. rewrite <- Hel in Hget at 1. fold (MapPage.window w) in Hget.
    rewrite (ngAfterViewInit_returns w _ _ Hget).
    unfold MapPage.window. simpl. done.
Qed.

Lemma view_init_hands_over_the_map_witness :
  presentable (MapService.mapSettings (MapService.self first_service))
  /\ getElementById "map" (MapPage.window first_page) = Some 0%nat
  /\ MapPage.map (MapPage.self first_page) = None
  /\ MapPage.map (MapPage.self (MapPage.step first_page MapPage.ViewInit)) = Some 0%nat
  /\ length (document (MapPage.window (MapPage.step first_page MapPage.ViewInit))) = 4%nat.
Proof.
  assert (Hel : getElementById "map" (MapPage.window (page_after [] first_visit)) = Some 0%nat)
    by (vm_compute; reflexivity).
  destruct (view_init_hands_over_the_map first_visit [] 0%nat presentable_first_visit
              eq_refl Hel) as (Hmap & _ & _ & Hdoc & _).
  split; [apply presentable_first_visit|]. split; [exact Hel|].
  split; [vm_compute; reflexivity|].
  split; [exact Hmap|].
  change (page_after [] first_visit) with first_page in Hdoc.
  rewrite Hdoc. vm_compute. reflexivity.
Defined.

(** X12: on a page without the map container the view initialization logs
    'Map element not found' and creates no map, yet goes on: the page holds
    no map, the script is requested all the same, and once it has loaded the
    overlay is created on no map at all. *)
Theorem view_init_without_container (w : MapPage.World) :
  getElementById "map" (MapPage.window w) = None ->
  MapService.map (MapService.self (MapPage.service w)) = None ->
  MapPage.osmb (MapPage.self w) = None ->
  let w' := MapPage.step w MapPage.ViewInit in
  console (MapPage.window w') = error_no_element :: console (MapPage.window w)
  /\ uncaught (MapPage.window w') = uncaught (MapPage.window w)
  /\ MapService.map (MapService.self (MapPage.service w')) = None
  /\ MapService.leaflet (MapPage.service w') = MapService.leaflet (MapPage.service w)
  /\ MapPage.map (MapPage.self w') = None
  /\ document (MapPage.window w') = document (MapPage.window w) ++ [script_element]
  /\ MapPage.awaiting (MapPage.self w') = Some MapPage.script_url
  /\ MapPage.overlays (MapPage.step w' MapPage.ScriptLoaded)
     = MapPage.overlays w ++ [created_overlay None].
Proof.
  intros Hel Hm Ho w'. subst w'.
  assert (Hget : MapService.getMap (getElementById "map" (MapPage.window w)) (MapPage.service w)
                 = (Returns None,
                    MapService.with_window (console_error "Map element not found" None)
                      (MapPage.service w)))
    by (rewrite Hel; by apply getMap_absent).
  rewrite (ngAfterViewInit_returns w _ _ Hget).
  destruct w as [[win lf st] ovs [m0 ob aw]]. unfold MapPage.window in *. simpl in *.
  subst ob. rewrite Hm. repeat (split; [done|]).
  unfold_page. simpl. reflexivity.
Qed.

Lemma view_init_without_container_witness :
  getElementById "map" (MapPage.window (MapPage.open bare_visit)) = None
  /\ console (MapPage.window (MapPage.step (MapPage.open bare_visit) MapPage.ViewInit))
     = [error_no_element]
  /\ MapPage.overlays
       (MapPage.run [MapPage.ViewInit; MapPage.ScriptLoaded] (MapPage.open bare_visit))
     = [created_overlay None].
Proof.
  assert (Hel : getElementById "map" (MapPage.window (MapPage.open bare_visit)) = None)
    by (vm_compute; reflexivity).
  assert (Hm : MapService.map (MapService.self (MapPage.service (MapPage.open bare_visit)))
               = None) by (vm_compute; reflexivity).
  assert (Ho : MapPage.osmb (MapPage.self (MapPage.open bare_visit)) = None) by reflexivity.
  destruct (view_init_without_container (MapPage.open bare_visit) Hel Hm Ho)
    as (Hlog & _ & _ & _ & _ & _ & _ & Hovs).
  split; [exact Hel|]. split; [rewrite Hlog; vm_compute; reflexivity|].
  change (MapPage.run [MapPage.ViewInit; MapPage.ScriptLoaded] (MapPage.open bare_visit))
    with (MapPage.step (MapPage.step (MapPage.open bare_visit) MapPage.ViewInit)
            MapPage.ScriptLoaded).
  rewrite Hovs. reflexivity.
Defined.

(** X13: over a service whose settings are [null] or [undefined] the view
    initialization throws inside [getMap], while the centre is read: the
    [catch] of [ngAfterViewInit] logs the [TypeError] as a failure to load the
    script, and nothing else has happened: no map, no script element, nothing
    awaited. *)
Theorem view_init_on_null_settings (w : MapPage.World) (el : Element) :
  getElementById "map" (MapPage.window w) = Some el ->
  MapService.map (MapService.self (MapPage.service w)) = None ->
  nullish (MapService.mapSettings (MapService.self (MapPage.service w))) = true ->
  MapPage.step w MapPage.ViewInit
  = MapPage.with_window
      (with_console
         (cons (error_loading (TypeError "Cannot read properties of null or undefined")))) w.
Proof.
  intros Hel Hm Hn.
  assert (Hget : MapService.getMap (getElementById "map" (MapPage.window w)) (MapPage.service w)
                 = (Throws (TypeError "Cannot read properties of null or undefined"),
                    MapPage.service w)).
  { rewrite Hel. destruct (MapPage.service w) as [win lf [s m u b]]. simpl in *. subst m.
    unfold_service. simpl. destruct s; try discriminate; reflexivity. }
  rewrite (ngAfterViewInit_throws w _ _ Hget). by destruct w as [[win lf st] ovs t].
Qed.

Lemma view_init_on_null_settings_witness :
  getElementById "map" (MapPage.window null_page) = Some 0%nat
  /\ MapService.mapSettings (MapService.self (MapPage.service null_page)) = JNull
  /\ console (MapPage.window (MapPage.step null_page MapPage.ViewInit))
     = [error_loading (TypeError "Cannot read properties of null or undefined")]
  /\ MapPage.awaiting (MapPage.self (MapPage.step null_page MapPage.ViewInit)) = None
  /\ document (MapPage.window (MapPage.step null_page MapPage.ViewInit)) = sample_document.
Proof.
  assert (Hel : getElementById "map" (MapPage.window null_page) = Some 0%nat)
    by (vm_compute; reflexivity).
  assert (Hm : MapService.map (MapService.self (MapPage.service null_page)) = None)
    by (vm_compute; reflexivity).
  assert (Hnull : MapService.mapSettings (MapService.self (MapPage.service null_page)) = JNull)
    by (vm_compute; reflexivity).
  assert (Hn : nullish (MapService.mapSettings (MapService.self (MapPage.service null_page)))
               = true) by (rewrite Hnull; reflexivity).
  split; [exact Hel|]. split; [exact Hnull|].
  rewrite (view_init_on_null_settings null_page 0%nat Hel Hm Hn).
  vm_compute. done.
Defined.

(** ** The script has loaded *)

(** X14: when the script the page waits for has loaded, the global is defined and
    one overlay is created, on the map the page holds, with the settings of
    the page and its tile source; the page refers to it.  The page waits no
    more: a second load event, or a failure, changes nothing. *)
Theorem script_loaded_creates_the_overlay_once (w : MapPage.World) (url : string) :
  MapPage.awaiting (MapPage.self w) = Some url ->
  MapPage.osmb (MapPage.self w) = None ->
  let w' := MapPage.script_loaded w in
  MapPage.overlays w' = MapPage.overlays w ++ [created_overlay (MapPage.map (MapPage.self w))]
  /\ MapPage.osmb (MapPage.self w') = Some (length (MapPage.overlays w))
  /\ OSMBuildings_defined (MapPage.window w') = true
  /\ MapPage.awaiting (MapPage.self w') = None
  /\ MapPage.map (MapPage.self w') = MapPage.map (MapPage.self w)
  /\ document (MapPage.window w') = document (MapPage.window w)
  /\ console (MapPage.window w') = console (MapPage.window w)
  /\ uncaught (MapPage.window w') = uncaught (MapPage.window w)
  /\ MapPage.script_loaded w' = w'
  /\ MapPage.script_failed w' = w'.
Proof.
  destruct w as [[win lf st] ovs [m ob aw]]. simpl. intros -> ->.
  unfold_page. simpl. done.
Qed.

Lemma script_loaded_creates_the_overlay_once_witness :
  MapPage.awaiting (MapPage.self first_page_loading) = Some MapPage.script_url
  /\ MapPage.overlays (MapPage.script_loaded first_page_loading) = [created_overlay (Some 0%nat)]
  /\ MapPage.osmb (MapPage.self (MapPage.script_loaded first_page_loading)) = Some 0%nat.
Proof.
  assert (Ha : MapPage.awaiting (MapPage.self first_page_loading) = Some MapPage.script_url)
    by (vm_compute; reflexivity).
  assert (Ho : MapPage.osmb (MapPage.self first_page_loading) = None)
    by (vm_compute; reflexivity).
  destruct (script_loaded_creates_the_overlay_once first_page_loading _ Ha Ho)
    as (Hovs & Hosmb & _).
  split; [exact Ha|]. split; [rewrite Hovs | rewrite Hosmb]; vm_compute; reflexivity.
Defined.

(** ** Clicks *)

(** X15: a click on the 3D button while the script has not loaded: the
    constructor call throws before the buttons are touched; the exception
    goes to the host, and the page and the document are as before. *)
Theorem render3D_without_the_script (w : MapPage.World) (target : Element) :
  OSMBuildings_defined (MapPage.window w) = false ->
  MapPage.osmb (MapPage.self w) = None ->
  MapPage.step w (MapPage.Click3D target)
  = MapPage.with_window (report_uncaught (TypeError "OSMBuildings is not a constructor")) w.
Proof.
  destruct w as [[win lf st] ovs [m ob aw]]. unfold MapPage.window. simpl. intros Hdef ->.
  unfold_page. simpl. rewrite Hdef. reflexivity.
Qed.

Lemma render3D_without_the_script_witness :
  OSMBuildings_defined (MapPage.window first_page_loading) = false
  /\ classes_of (MapPage.step first_page_loading (MapPage.Click3D 1%nat)) 1%nat = Some ∅
  /\ classes_of (MapPage.step first_page_loading (MapPage.Click3D 1%nat)) 2%nat
     = Some {["active"]}
  /\ MapPage.overlays (MapPage.step first_page_loading (MapPage.Click3D 1%nat)) = [].
Proof.
  assert (Hdef : OSMBuildings_defined (MapPage.window first_page_loading) = false)
    by (vm_compute; reflexivity).
  assert (Ho : MapPage.osmb (MapPage.self first_page_loading) = None)
    by (vm_compute; reflexivity).
  split; [exact Hdef|].
  rewrite (render3D_without_the_script first_page_loading 1%nat Hdef Ho).
  split; [|split]; reflexivity.
Defined.

(** X16: disabling 3D and enabling it again does not bring the old overlay
    back: the overlay the page referred to stays off the map, and a new one
    is created, on the map of the page, to which the page now refers. *)
Theorem overlay_is_created_anew (w : MapPage.World) (o b2 b3 : Element) :
  MapPage.osmb (MapPage.self w) = Some o ->
  OSMBuildings_defined (MapPage.window w) = true ->
  let w' := MapPage.run [MapPage.Click2D b2; MapPage.Click3D b3] w in
  MapPage.overlays w'
  = alter detached o (MapPage.overlays w) ++ [created_overlay (MapPage.map (MapPage.self w))]
  /\ MapPage.osmb (MapPage.self w') = Some (length (MapPage.overlays w))
  /\ (forall ov, MapPage.overlays w !! o = Some ov ->
        MapPage.overlays w' !! o = Some (detached ov)
        /\ MapPage.osmb (MapPage.self w') <> Some o).
Proof.
  destruct w as [[win lf st] ovs [m ob aw]]. unfold MapPage.window. simpl. intros -> Hdef.
  unfold_page. simpl. rewrite Hdef. simpl.
  split; [reflexivity|]. split; [by rewrite length_alter|].
  intros ov Hov. pose proof (lookup_lt_Some _ _ _ Hov) as Hlt. split.
  - rewrite lookup_app_l by by rewrite length_alter.
    rewrite list_lookup_alter_eq, Hov. reflexivity.
  - rewrite length_alter. intros [= Heq]. lia.
Qed.

Lemma overlay_is_created_anew_witness :
  MapPage.osmb (MapPage.self (MapPage.script_loaded first_page_loading)) = Some 0%nat
  /\ OSMBuildings_defined (MapPage.window (MapPage.script_loaded first_page_loading)) = true
  /\ MapPage.overlays
       (MapPage.run [MapPage.Click2D 2%nat; MapPage.Click3D 1%nat]
          (MapPage.script_loaded first_page_loading))
     = [detached (created_overlay (Some 0%nat)); created_overlay (Some 0%nat)]
  /\ MapPage.osmb
       (MapPage.self
          (MapPage.run [MapPage.Click2D 2%nat; MapPage.Click3D 1%nat]
             (MapPage.script_loaded first_page_loading)))
     = Some 1%nat.
Proof.
  assert (Ho : MapPage.osmb (MapPage.self (MapPage.script_loaded first_page_loading))
               = Some 0%nat) by (vm_compute; reflexivity).
  assert (Hdef : OSMBuildings_defined (MapPage.window (MapPage.script_loaded first_page_loading))
                 = true) by (vm_compute; reflexivity).
  destruct (overlay_is_created_anew (MapPage.script_loaded first_page_loading)
              0%nat 2%nat 1%nat Ho Hdef) as (Hovs & Hosmb & _).
  split; [exact Ho|]. split; [exact Hdef|].
  split; [rewrite Hovs | rewrite Hosmb]; vm_compute; reflexivity.
Defined.

(** ** The buttons *)

Ltac classes :=
  try (apply set_eq; intros ?);
  repeat first [rewrite elem_of_union | rewrite elem_of_difference | rewrite elem_of_singleton];
  tauto.

Lemma marked_other (c : string) (cs : gset string) :
  c <> "active" -> c ∈ ({["active"]} ∪ cs : gset string) <-> c ∈ cs.
Proof. intros Hc. classes. Qed.

Lemma unmarked_other (c : string) (cs : gset string) :
  c <> "active" -> c ∈ cs ∖ {["active"]} <-> c ∈ cs.
Proof. intros Hc. classes. Qed.

Lemma marked (cs : gset string) : "active" ∈ ({["active"]} ∪ cs : gset string).
Proof. apply elem_of_union_l. by apply elem_of_singleton. Qed.

Lemma unmarked (cs : gset string) : "active" ∉ cs ∖ {["active"]}.
Proof. intros Hin. apply elem_of_difference in Hin as [_ Hin]. apply Hin. by apply elem_of_singleton. Qed.

(** X17: what [toggleUI] does to each element: it keeps its tag, its id and
    every class other than 'active'; afterwards the element is 'active'
    exactly when it is the target, or it is no button and was 'active'
    before. *)
Theorem toggleUI_marks_the_target_only
    (w : MapPage.World) (button e : Element) (n : DomNode) :
  document (MapPage.window w) !! e = Some n ->
  let w' := exec (MapPage.toggleUI button) w in
  length (document (MapPage.window w')) = length (document (MapPage.window w))
  /\ exists n',
       document (MapPage.window w') !! e = Some n'
       /\ tagName n' = tagName n /\ elementId n' = elementId n /\ src n' = src n
       /\ (forall c, c <> "active" -> c ∈ classList n' <-> c ∈ classList n)
       /\ ("active" ∈ classList n'
           <-> e = button \/ (tagName n <> "button" /\ "active" ∈ classList n)).
Proof.
  destruct w as [[win lf st] ovs t]. unfold MapPage.window. simpl. intros Hn.
  unfold_page. simpl. split; [by rewrite length_alter, length_fmap|].
  destruct (decide (e = button)) as [->|Hne].
  - rewrite list_lookup_alter_eq, list_lookup_fmap, Hn. simpl. eexists. split; [reflexivity|].
    destruct (decide (tagName n = "button")) as [Ht|Ht]; simpl.
    + split; [done|]. split; [done|]. split; [done|]. split.
      * intros c Hc. by rewrite marked_other, unmarked_other.
      * split; [by left | intros _; apply marked].
    + split; [done|]. split; [done|]. split; [done|]. split.
      * intros c Hc. by rewrite marked_other.
      * split; [by left | intros _; apply marked].
  - rewrite list_lookup_alter_ne by done. rewrite list_lookup_fmap, Hn. simpl.
    eexists. split; [reflexivity|].
    destruct (decide (tagName n = "button")) as [Ht|Ht]; simpl.
    + split; [done|]. split; [done|]. split; [done|]. split.
      * intros c Hc. by rewrite unmarked_other.
      * split; [intros Hin; by apply unmarked in Hin | intros [Heq|[Htag _]]; done].
    + split; [done|]. split; [done|]. split; [done|]. split; [done|].
      split; [intros Hin; by right | intros [Heq|[_ Hin]]; done].
Qed.

Lemma toggleUI_marks_the_target_only_witness :
  document (MapPage.window first_page) !! 2%nat
  = Some {| tagName := "button"; elementId := "mode-2d"; classList := {["active"]}; src := "" |}
  /\ exists n',
       document (MapPage.window (exec (MapPage.toggleUI 1%nat) first_page)) !! 2%nat = Some n'
       /\ elementId n' = "mode-2d"
       /\ "active" ∉ classList n'.
Proof.
  assert (Hn : document (MapPage.window first_page) !! 2%nat
               = Some {| tagName := "button"; elementId := "mode-2d";
                         classList := {["active"]}; src := "" |})
    by (vm_compute; reflexivity).
  destruct (toggleUI_marks_the_target_only first_page 1%nat 2%nat _ Hn)
    as (_ & n' & Hn' & _ & Hid & _ & _ & Hactive).
  split; [exact Hn|]. exists n'. split; [exact Hn'|]. split; [exact Hid|].
  intros Hin. apply Hactive in Hin as [Heq|[Htag _]]; [discriminate|]. by apply Htag.
Defined.

Lemma toggle_twice button (doc : list DomNode) :
  let clear := fun n => if decide (tagName n = "button") then remove_class "active" n else n in
  alter (add_class "active") button
    (clear <$> alter (add_class "active") button (clear <$> doc))
  = alter (add_class "active") button (clear <$> doc).
Proof.
  intros clear. apply list_eq. intros i.
  destruct (decide (i = button)) as [->|Hne].
  - rewrite !list_lookup_alter_eq, !list_lookup_fmap, list_lookup_alter_eq, list_lookup_fmap.
    destruct (doc !! button) as [[tag id cs sr]|]; simpl; [|done]. f_equal.
    unfold clear, add_class, remove_class. simpl.
    destruct (decide (tag = "button")); simpl; rewrite ?decide_True by done;
      rewrite ?decide_False by done; simpl; f_equal; classes.
  - rewrite !list_lookup_alter_ne by done.
    rewrite !list_lookup_fmap, list_lookup_alter_ne by done. rewrite list_lookup_fmap.
    destruct (doc !! i) as [[tag id cs sr]|]; simpl; [|done]. f_equal.
    unfold clear, remove_class. simpl.
    destruct (decide (tag = "button")); simpl; rewrite ?decide_True by done;
      rewrite ?decide_False by done; simpl; f_equal; classes.
Qed.

(** X18: a second click on the 2D button changes nothing: after one click the
    page, its overlays and the document are where a second one leaves them. *)
Theorem render2D_twice_is_once (w : MapPage.World) (target : Element) :
  MapPage.run [MapPage.Click2D target; MapPage.Click2D target] w
  = MapPage.run [MapPage.Click2D target] w.
Proof.
  destruct w as [[[st cons unc doc def] lf s] ovs [m ob aw]].
  unfold_page.
  unfold with_document, MapPage.with_service, MapPage.with_self, MapPage.with_overlays,
    MapService.with_window.
  destruct ob as [o|]; simpl; by rewrite toggle_twice.
Qed.

(** ** The page stays in order *)

Lemma getMap_returns_held element w m sw :
  MapService.getMap element w = (Returns m, sw) ->
  MapService.map (MapService.self sw) = m.
Proof.
  unfold MapService.getMap, bind, gets, ret. simpl.
  destruct (MapService.map (MapService.self w)) as [h|] eqn:Hm; simpl.
  - intros [= <- <-]. done.
  - destruct (MapService.renderMap element w) as [[[]|e] w1]; simpl; [|done].
    by intros [= <- <-].
Qed.

Lemma getMap_keeps_global element w :
  OSMBuildings_defined (MapService.window (exec (MapService.getMap element) w))
  = OSMBuildings_defined (MapService.window w).
Proof.
  destruct w as [win lf [s m u b]]. unfold_service.
  unfold MapService.with_self, MapService.with_window, MapService.with_leaflet. simpl.
  destruct m as [h|]; simpl; [done|]. destruct element as [el|]; simpl; [|done].
  destruct s; simpl; repeat (case_match; simpl in *; simplify_eq); done.
Qed.

Lemma getMap_throws_unchanged element w e sw :
  MapService.getMap element w = (Throws e, sw) -> sw = w.
Proof.
  destruct w as [win lf [s m u b]]. unfold_service.
  unfold MapService.with_self, MapService.with_window, MapService.with_leaflet. simpl.
  destruct m as [h|]; simpl; [done|]. destruct element as [el|]; simpl; [|done].
  destruct s; simpl; repeat (case_match; simpl in *; simplify_eq); try done;
    by intros [= _ <-].
Qed.

Lemma in_order_ViewInit w : in_order w -> in_order (MapPage.step w MapPage.ViewInit).
Proof.
  intros (Hd & Hmap & Hosmb & Hovs & Haw & Hdef).
  pose proof (dressed_getMap (getElementById "map" (MapPage.window w)) _ Hd) as Hd'.
  pose proof (getMap_keeps_global (getElementById "map" (MapPage.window w))
                (MapPage.service w)) as Hwin.
  unfold exec in Hd', Hwin.
  destruct (MapService.getMap (getElementById "map" (MapPage.window w)) (MapPage.service w))
    as [[m|e] sw] eqn:Hget; simpl in Hd', Hwin.
  - rewrite (ngAfterViewInit_returns w m sw Hget).
    pose proof (getMap_returns_held _ _ _ _ Hget) as Hheld.
    unfold in_order, MapPage.window. simpl. split; [by destruct sw|].
    split.
    { pose proof (dressed_coherent _ Hd') as Hcoh. unfold coherent in Hcoh.
      rewrite Hheld in Hcoh. destruct m as [h|]; [|by left].
      destruct Hcoh as (-> & _). right. done. }
    split; [done|]. split; [done|]. split; [by intros url [= <-]|].
    rewrite Hwin. done.
  - rewrite (ngAfterViewInit_throws w e sw Hget).
    apply getMap_throws_unchanged in Hget. subst sw.
    unfold in_order, MapPage.window. simpl.
    split; [by destruct (MapPage.service w)|]. done.
Qed.

(** The state [initializeOSMBuildings] leaves is in order, once the window
    is as the caller left it. *)
Lemma in_order_initializeOSMBuildings w :
  in_order w -> in_order (exec MapPage.initializeOSMBuildings w).
Proof.
  destruct w as [[win lf st] ovs [m ob aw]]. unfold in_order, MapPage.window. simpl.
  intros (Hd & Hmap & Hosmb & Hovs & Haw & Hdef).
  unfold_page. simpl. destruct ob as [o|]; simpl; [done|].
  destruct (OSMBuildings_defined win) eqn:Hdefined; simpl; [|by rewrite Hdefined].
  split; [done|]. split; [done|]. split.
  { intros o [= <-]. by rewrite lookup_app_r, Nat.sub_diag by done. }
  split; [|done].
  intros i ov Hi. apply lookup_app_Some in Hi as [Hi|[Hlen Hi]].
  - destruct (Hovs i ov Hi) as (Hatt & Hrest). split; [|done].
    intros Htrue. by specialize (Hatt Htrue).
  - apply list_lookup_singleton_Some in Hi as [Hi <-]. simpl.
    split; [intros _; f_equal; lia|]. split; [done|]. split; [done|].
    destruct Hmap as [->|[-> _]]; auto.
Qed.

Lemma in_order_window f w :
  (OSMBuildings_defined (MapPage.window w) = true ->
   OSMBuildings_defined (f (MapPage.window w)) = true) ->
  in_order w -> in_order (MapPage.with_window f w).
Proof.
  destruct w as [[win lf st] ovs t]. unfold in_order, MapPage.window. simpl.
  intros Hf (Hd & Hmap & Hosmb & Hovs & Haw & Hdef). auto 10.
Qed.

Lemma in_order_toggleUI button w : in_order w -> in_order (exec (MapPage.toggleUI button) w).
Proof.
  destruct w as [[win lf st] ovs t]. unfold in_order, MapPage.window. simpl.
  intros (Hd & Hmap & Hosmb & Hovs & Haw & Hdef). unfold_page. simpl. auto 10.
Qed.

Lemma initializeOSMBuildings_throws w e w' :
  MapPage.initializeOSMBuildings w = (Throws e, w') -> w' = w.
Proof.
  destruct w as [[win lf st] ovs [m ob aw]]. unfold_page. simpl.
  destruct ob; simpl; [done|]. destruct (OSMBuildings_defined win); simpl; [done|].
  by intros [= _ <-].
Qed.

Lemma in_order_Click3D target w :
  in_order w -> in_order (MapPage.step w (MapPage.Click3D target)).
Proof.
  intros Hw. pose proof (in_order_initializeOSMBuildings w Hw) as Hinit.
  unfold MapPage.step, MapPage.dispatch, MapPage.render3D, bind. unfold exec in Hinit.
  destruct (MapPage.initializeOSMBuildings w) as [[[]|e] w1] eqn:Hrun; simpl in Hinit.
  - pose proof (in_order_toggleUI target w1 Hinit) as Ht. unfold exec in Ht.
    by destruct (MapPage.toggleUI target w1) as [[[]|e] w2].
  - apply in_order_window; done.
Qed.

Lemma in_order_Click2D target w :
  in_order w -> in_order (MapPage.step w (MapPage.Click2D target)).
Proof.
  intros Hw.
  assert (Hremoved : in_order
            (exec (o <- gets (fun w => MapPage.osmb (MapPage.self w)) ;;
                   match o with
                   | Some h => MapPage.remove_overlay h ;; MapPage.set_osmb None
                   | None => ret tt
                   end) w)).
  { destruct w as [[win lf st] ovs [m ob aw]]. revert Hw. unfold in_order, MapPage.window. simpl.
    intros (Hd & Hmap & Hosmb & Hovs & Haw & Hdef). unfold_page. simpl.
    destruct ob as [h|]; simpl; [|done].
    split; [done|]. split; [done|]. split; [done|]. split.
    - intros i ov Hi. destruct (decide (i = h)) as [->|Hne].
      + rewrite list_lookup_alter_eq in Hi.
        destruct (ovs !! h) as [ov0|] eqn:Hov0; [|done]. injection Hi as <-. simpl.
        destruct (Hovs h ov0 Hov0) as (_ & Hrest). done.
      + rewrite list_lookup_alter_ne in Hi by done.
        destruct (Hovs i ov Hi) as (Hatt & Hrest). split; [|done].
        intros Htrue. specialize (Hatt Htrue). congruence.
    - split; [done|]. intros Hne. apply Hdef. intros ->. by apply Hne. }
  pose proof (in_order_toggleUI target _ Hremoved) as Ht.
  revert Ht. destruct w as [[win lf st] ovs [m ob aw]]. unfold_page. simpl.
  by destruct ob.
Qed.

Lemma in_order_ScriptLoaded w : in_order w -> in_order (MapPage.script_loaded w).
Proof.
  intros Hw. unfold MapPage.script_loaded.
  destruct (MapPage.awaiting (MapPage.self w)) as [url|] eqn:Haw; [|done].
  set (w1 := MapPage.with_window _ _).
  assert (H1 : in_order w1).
  { subst w1. apply in_order_window; [done|].
    destruct w as [[win lf st] ovs [m ob aw]]. revert Hw. unfold in_order, MapPage.window.
    unfold_page. simpl. intros (Hd & Hmap & Hosmb & Hovs & _ & Hdef).
    do 4 (split; [assumption|]). split; [intros ? [=] | assumption]. }
  pose proof (in_order_initializeOSMBuildings w1 H1) as Hinit. unfold exec in Hinit.
  destruct (MapPage.initializeOSMBuildings w1) as [[[]|e] w2]; simpl in Hinit; [done|].
  by apply in_order_window.
Qed.

Lemma in_order_ScriptFailed w : in_order w -> in_order (MapPage.script_failed w).
Proof.
  intros Hw. unfold MapPage.script_failed.
  destruct (MapPage.awaiting (MapPage.self w)) as [url|] eqn:Haw; [|done].
  apply in_order_window; [done|].
  destruct w as [[win lf st] ovs [m ob aw]]. revert Hw. unfold in_order, MapPage.window.
  unfold_page. simpl. intros (Hd & Hmap & Hosmb & Hovs & _ & Hdef).
    do 4 (split; [assumption|]). split; [intros ? [=] | assumption].
Qed.

Lemma in_order_run evs : forall w, in_order w -> in_order (MapPage.run evs w).
Proof.
  induction evs as [|ev evs IH]; intros w Hw; simpl; [done|].
  apply IH. destruct ev as [| | |target|target].
  - by apply in_order_ViewInit.
  - by apply in_order_ScriptLoaded.
  - by apply in_order_ScriptFailed.
  - by apply in_order_Click3D.
  - by apply in_order_Click2D.
Qed.

Lemma step_frame w ev :
  let w' := MapPage.step w ev in
  localStorage (MapPage.window w') = localStorage (MapPage.window w)
  /\ MapService.mapSettings (MapService.self (MapPage.service w'))
     = MapService.mapSettings (MapService.self (MapPage.service w))
  /\ MapService.subscribed (MapService.self (MapPage.service w'))
     = MapService.subscribed (MapService.self (MapPage.service w)).
Proof.
  destruct ev as [| | |target|target].
  - pose proof (getMap_frame (getElementById "map" (MapPage.window w)) (MapPage.service w))
      as Hframe. unfold exec in Hframe. cbv zeta in *.
    destruct (MapService.getMap (getElementById "map" (MapPage.window w)) (MapPage.service w))
      as [[m|e] sw] eqn:Hget; simpl in Hframe.
    + rewrite (ngAfterViewInit_returns w m sw Hget). unfold MapPage.window. simpl. done.
    + rewrite (ngAfterViewInit_throws w e sw Hget). unfold MapPage.window. simpl. done.
  - destruct w as [[win lf st] ovs [m ob aw]]. unfold_page. simpl.
    destruct aw; simpl; [|done]. destruct ob; simpl; done.
  - destruct w as [[win lf st] ovs [m ob aw]]. unfold_page. simpl. by destruct aw.
  - destruct w as [[win lf st] ovs [m ob aw]]. unfold_page. simpl.
    destruct ob; simpl; [done|]. destruct (OSMBuildings_defined win); done.
  - destruct w as [[win lf st] ovs [m ob aw]]. unfold_page. simpl. by destruct ob.
Qed.

Lemma page_run_keeps_settings evs : forall w,
  MapService.mapSettings (MapService.self (MapPage.service (MapPage.run evs w)))
  = MapService.mapSettings (MapService.self (MapPage.service w)).
Proof.
  induction evs as [|ev evs IH]; intros w; simpl; [done|].
  rewrite IH. apply step_frame.
Qed.

(** X19: on the page of a visit whose service was constructed with
    presentable settings and has seen tame operations, whatever the host and
    the user then do, with the view initialized at most once, the page stays
    in order: at most one overlay is on the map, the one the page refers
    to; every overlay was created with the settings and the tile source of
    the page; the page holds no map or the one map of the service; that map
    is dressed as the service dresses it; and the settings are as the
    service had them. *)
Theorem page_stays_in_order
    (win : Window) (ops : list MapService.Operation) (evs : list MapPage.Event) :
  presentable (MapService.mapSettings (MapService.self (MapService.construct win L.fresh))) ->
  forallb tame ops = true ->
  initialized_once evs = true ->
  let w := MapPage.run evs (page_after ops win) in
  in_order w
  /\ presentable (MapService.mapSettings (MapService.self (MapPage.service w))).
Proof.
  intros Hstart Hops Honce w. split.
  - apply in_order_run. unfold in_order, page_after, MapPage.open, MapPage.window. simpl.
    split; [apply dressed_run, map_dressed_at_construction|].
    split; [by left|]. split; [done|]. split; [by intros i ov Hi|]. split; done.
  - subst w. rewrite page_run_keeps_settings.
    apply presentable_run; [apply coherent_construct | done | done].
Qed.

Lemma page_stays_in_order_witness :
  presentable (MapService.mapSettings (MapService.self first_service))
  /\ in_order
       (MapPage.run
          [ MapPage.ViewInit; MapPage.ScriptLoaded; MapPage.Click3D 1%nat;
            MapPage.Click2D 2%nat; MapPage.Click3D 1%nat ]
          (page_after [ MapService.Geolocation (MapService.Next (Some (48.5, 2.25)%float)) ]
             first_visit)).
Proof.
  split; [apply presentable_first_visit|].
  apply (page_stays_in_order first_visit
           [ MapService.Geolocation (MapService.Next (Some (48.5, 2.25)%float)) ]
           [ MapPage.ViewInit; MapPage.ScriptLoaded; MapPage.Click3D 1%nat;
             MapPage.Click2D 2%nat; MapPage.Click3D 1%nat ]
           presentable_first_visit eq_refl eq_refl).
Defined.

(** ** What the page leaves alone *)

(** X20: nothing the page does, on view initialization, on a script event or on
    a click, writes to storage, changes the settings of the service or ends
    its subscription to the geolocation. *)
Theorem page_leaves_the_settings_alone (evs : list MapPage.Event) (w : MapPage.World) :
  let w' := MapPage.run evs w in
  localStorage (MapPage.window w') = localStorage (MapPage.window w)
  /\ MapService.mapSettings (MapService.self (MapPage.service w'))
     = MapService.mapSettings (MapService.self (MapPage.service w))
  /\ MapService.subscribed (MapService.self (MapPage.service w'))
     = MapService.subscribed (MapService.self (MapPage.service w)).
Proof.
  revert w. induction evs as [|ev evs IH]; intros w; simpl; [done|].
  destruct (IH (MapPage.step w ev)) as (-> & -> & ->). apply step_frame.
Qed.
